(** * FashionOntology: a shallow embedding of [src/ontology/base_ontology.py]

    The module keeps a taxonomy of fashion concepts in a name-keyed
    dictionary, mirrors the parent links in a [networkx.DiGraph], and puts a
    propose/approve queue in front of it.

    Modelling conventions.
    - A Python [dict] is insertion ordered: it is an association list whose
      keys are pairwise distinct; assignment to a known key keeps its place.
    - A Python [set] of strings is a [gset string].
    - [datetime.now()] reads the wall clock: the clock is the function [now]
      from the number of readings taken so far to the reading, and the store
      counts its readings in [clock_reads].
    - [networkx.DiGraph] is its insertion-ordered node table, each node with
      its attribute dictionary and its ordered successor list.
    - [json.dumps]/[json.loads] are functions between Python values and JSON
      documents; a JSON text is identified with the document it denotes. *)

From Stdlib Require Import Sorted.
From stdpp Require Import base list strings gmap sets.

Local Open Scope Z_scope.

(** ** Python values and JSON documents *)

Module Json.

#[local] Set Warnings "-register-all".

(** The values an attribute dictionary can hold that [json.dumps] accepts
    (floats are left out; dictionary keys are strings). *)
Inductive pyval : Type :=
  | PyNone
  | PyBool (b : bool)
  | PyInt (z : Z)
  | PyStr (s : string)
  | PyList (l : list pyval)
  | PyTuple (l : list pyval)
  | PyDict (d : list (string * pyval)).

(** A JSON document. *)
Inductive json : Type :=
  | JNull
  | JBool (b : bool)
  | JNumber (z : Z)
  | JString (s : string)
  | JArray (l : list json)
  | JObject (d : list (string * json)).

Abbreviation pydict := (list (string * pyval)).
Abbreviation jobject := (list (string * json)).

(** [json.dumps]: tuples are written as arrays. *)
Fixpoint dumps (v : pyval) : json :=
  match v with
  | PyNone => JNull
  | PyBool b => JBool b
  | PyInt z => JNumber z
  | PyStr s => JString s
  | PyList l => JArray (map dumps l)
  | PyTuple l => JArray (map dumps l)
  | PyDict d => JObject (map (fun kv => (kv.1, dumps kv.2)) d)
  end.

(** [json.loads]: arrays are read back as lists. *)
Fixpoint loads (j : json) : pyval :=
  match j with
  | JNull => PyNone
  | JBool b => PyBool b
  | JNumber z => PyInt z
  | JString s => PyStr s
  | JArray l => PyList (map loads l)
  | JObject d => PyDict (map (fun kv => (kv.1, loads kv.2)) d)
  end.

Definition dumps_dict (d : pydict) : jobject :=
  map (fun kv => (kv.1, dumps kv.2)) d.

Definition loads_dict (d : jobject) : pydict :=
  map (fun kv => (kv.1, loads kv.2)) d.

(** A dictionary survives serialization when reading back what was written
    gives the dictionary again. *)
Definition survives (d : pydict) : Prop := loads_dict (dumps_dict d) = d.

(** No tuple occurs in the value. *)
Fixpoint tuple_free (v : pyval) : bool :=
  match v with
  | PyList l => forallb tuple_free l
  | PyTuple _ => false
  | PyDict d => forallb (fun kv => tuple_free kv.2) d
  | _ => true
  end.

(** Two JSON texts are the same string exactly when they denote the same
    document, so membership in a set of texts is decided on documents. *)
Definition json_eq_dec : forall x y : json, {x = y} + {x <> y}.
Proof.
  fix IH 1.
  intros x y. decide equality.
  - apply bool_eq_dec.
  - apply Z.eq_dec.
  - apply String.string_dec.
  - apply (List.list_eq_dec IH).
  - apply List.list_eq_dec. intros [k a] [k' b].
    destruct (String.string_dec k k') as [->|Hk]; [|right; congruence].
    destruct (IH a b) as [->|Hab]; [left; reflexivity|right; congruence].
Defined.

#[global] Instance json_eq_decision : EqDecision json := json_eq_dec.

End Json.
Export Json.

(** ** Insertion-ordered dictionaries with string keys *)

Section Dict.
Context {V : Type}.

Fixpoint dict_get (d : list (string * V)) (k : string) : option V :=
  match d with
  | [] => None
  | (k', v) :: d' => if decide (k' = k) then Some v else dict_get d' k
  end.

(** [k in d] *)
Definition dict_mem (d : list (string * V)) (k : string) : bool :=
  bool_decide (is_Some (dict_get d k)).

(** [d[k] = v]: a known key keeps its position, a new key goes last. *)
Fixpoint dict_set (d : list (string * V)) (k : string) (v : V)
  : list (string * V) :=
  match d with
  | [] => [(k, v)]
  | (k', v') :: d' =>
      if decide (k' = k) then (k, v) :: d' else (k', v') :: dict_set d' k v
  end.

(** [f] applied in place to the value under [k], when there is one. *)
Definition dict_alter (f : V -> V) (d : list (string * V)) (k : string)
  : list (string * V) :=
  map (fun kv => if decide (kv.1 = k) then (kv.1, f kv.2) else kv) d.

Definition dict_keys (d : list (string * V)) : list string := d.*1.
End Dict.

(** ** Concepts *)

(** [if s:] on an optional string: [None] and the empty string are false. *)
Definition truthy (s : option string) : bool :=
  match s with
  | Some s => negb (bool_decide (s = ""))
  | None => false
  end.

(** [attributes or {}] *)
Definition or_empty (attributes : option pydict) : pydict :=
  match attributes with
  | Some d => d
  | None => []
  end.

Record FashionConcept : Type := mkConcept {
  name : string;
  category : string;
  attributes : pydict;
  parent : option string;
  children : gset string;
  created_at : Z;
  modified_at : Z
}.

(** What [to_dict] returns; [A] is the type of the attribute dictionary:
    [pydict] in memory, [jobject] in a document.  A timestamp stands for
    its ISO-8601 rendering. *)
Record ConceptDict (A : Type) : Type := mkDict {
  d_name : string;
  d_category : string;
  d_attributes : A;
  d_parent : option string;
  d_children : list string;
  d_created_at : Z;
  d_modified_at : Z
}.
Arguments mkDict {A}.
Arguments d_name {A}.
Arguments d_category {A}.
Arguments d_attributes {A}.
Arguments d_parent {A}.
Arguments d_children {A}.
Arguments d_created_at {A}.
Arguments d_modified_at {A}.

(** [FashionConcept.__init__]; [t1] and [t2] are the two clock readings. *)
Definition FashionConcept_init (nm cat : string) (attrs : option pydict)
    (par : option string) (t1 t2 : Z) : FashionConcept :=
  {| name := nm; category := cat; attributes := or_empty attrs;
     parent := par; children := ∅; created_at := t1; modified_at := t2 |}.

Definition to_dict (c : FashionConcept) : ConceptDict pydict :=
  {| d_name := name c; d_category := category c;
     d_attributes := attributes c; d_parent := parent c;
     d_children := elements (children c);
     d_created_at := created_at c; d_modified_at := modified_at c |}.

Definition add_child (nm : string) (c : FashionConcept) : FashionConcept :=
  {| name := name c; category := category c; attributes := attributes c;
     parent := parent c; children := children c ∪ {[nm]};
     created_at := created_at c; modified_at := modified_at c |}.

(** ** The traversal graph *)

Module DiGraph.

(** One row of the node table: the node, its attribute dictionary (absent
    for a node that only [add_edge] created) and its successors in the
    order the edges were added. *)
Record node : Type := mkNode {
  node_name : string;
  node_attrs : option (ConceptDict pydict);
  node_succ : list string
}.

Abbreviation t := (list node).

Definition empty : t := [].

(** The nodes, in the order they were added. *)
Definition nodes (g : t) : list string := node_name <$> g.

(** [n in g] *)
Definition has_node (g : t) (n : string) : bool :=
  bool_decide (n ∈ nodes g).

Fixpoint successors (g : t) (n : string) : list string :=
  match g with
  | [] => []
  | x :: g' => if decide (node_name x = n) then node_succ x else successors g' n
  end.

Definition edges (g : t) : list (string * string) :=
  x ← g; (fun v => (node_name x, v)) <$> node_succ x.

(** [add_node(n, **attrs)] *)
Definition add_node (g : t) (n : string) (attrs : ConceptDict pydict) : t :=
  if has_node g n
  then (fun x => if decide (node_name x = n)
                 then mkNode n (Some attrs) (node_succ x) else x) <$> g
  else g ++ [mkNode n (Some attrs) []].

(** The implicit node creation of [add_edge]. *)
Definition touch (g : t) (n : string) : t :=
  if has_node g n then g else g ++ [mkNode n None []].

(** [add_edge(u, v)] *)
Definition add_edge (g : t) (u v : string) : t :=
  (fun x => if decide (node_name x = u)
            then mkNode u (node_attrs x)
                   (if bool_decide (v ∈ node_succ x) then node_succ x
                    else node_succ x ++ [v])
            else x) <$> touch (touch g u) v.

(** A walk of [k] edges from [s], along the direction of the edges. *)
Inductive walk (g : t) (s : string) : string -> nat -> Prop :=
  | walk_here : walk g s s 0
  | walk_step x y k :
      walk g s x k -> y ∈ successors g x -> walk g s y (S k).

(** The nodes at the end of a walk of exactly [k] edges from [s]. *)
Fixpoint level (g : t) (s : string) (k : nat) : list string :=
  match k with
  | O => [s]
  | S k' => remove_dups (x ← level g s k'; successors g x)
  end.

(** The least [d] in [d0, d0 + fuel) with [t] in level [d]. *)
Fixpoint first_level (g : t) (s t : string) (d0 fuel : nat) : option nat :=
  match fuel with
  | O => None
  | S fuel' =>
      if bool_decide (t ∈ level g s d0) then Some d0
      else first_level g s t (S d0) fuel'
  end.

(** [networkx.shortest_path_length(g, s, t)] for nodes of [g]; [None]
    stands for [NetworkXNoPath].  A shortest path visits no node twice, so
    it has fewer edges than the graph has nodes. *)
Definition shortest_path_length (g : t) (s t : string) : option nat :=
  first_level g s t 0 (length g).

End DiGraph.

(** ** The concept store *)

Record FashionOntology : Type := mkOntology {
  concepts : list (string * FashionConcept);
  graph : DiGraph.t;
  (** how many times [datetime.now()] has been read *)
  clock_reads : nat
}.

(** [sorted(related, key=lambda x: x[1])]: the sort is stable, so pairs at
    the same distance keep their order.  [insert_by_distance x l] puts [x]
    in front of the first pair that is not nearer than [x]. *)
Fixpoint insert_by_distance (x : string * nat) (l : list (string * nat))
  : list (string * nat) :=
  match l with
  | [] => [x]
  | y :: l' =>
      if decide (x.2 <= y.2)%nat then x :: y :: l'
      else y :: insert_by_distance x l'
  end.

Fixpoint sorted_by_distance (l : list (string * nat)) : list (string * nat) :=
  match l with
  | [] => []
  | x :: l' => insert_by_distance x (sorted_by_distance l')
  end.

Section Store.
(** [now k] is what the [k]-th call of [datetime.now()] returns. *)
Variable now : nat -> Z.

Definition add_concept (o : FashionOntology) (nm cat : string)
    (attrs : option pydict) (par : option string) : FashionOntology :=
  let k := clock_reads o in
  let concept := FashionConcept_init nm cat attrs par (now k) (now (S k)) in
  let cs := dict_set (concepts o) nm concept in
  let g := DiGraph.add_node (graph o) nm (to_dict concept) in
  match par with
  | Some p =>
      if truthy par then
        {| concepts := if dict_mem cs p then dict_alter (add_child nm) cs p
                       else cs;
           graph := DiGraph.add_edge g p nm;
           clock_reads := S (S k) |}
      else {| concepts := cs; graph := g; clock_reads := S (S k) |}
  | None => {| concepts := cs; graph := g; clock_reads := S (S k) |}
  end.

Definition main_categories : list string :=
  ["Apparel"; "Footwear"; "Accessories"; "Beauty"].

Definition apparel_categories : list string :=
  ["Dresses"; "Tops"; "Bottoms"; "Outerwear"; "Suits";
   "Activewear"; "Intimates"; "Swimwear"].

Definition attribute_categories : list (string * list string) :=
  [("Material", ["Cotton"; "Silk"; "Wool"; "Polyester"; "Leather"; "Denim"]);
   ("Pattern", ["Solid"; "Striped"; "Floral"; "Checked"; "Geometric"]);
   ("Style", ["Casual"; "Formal"; "Athletic"; "Bohemian"; "Classic"]);
   ("Fit", ["Regular"; "Slim"; "Loose"; "Tailored"; "Oversized"]);
   ("Length", ["Mini"; "Midi"; "Maxi"; "Cropped"; "Full-length"]);
   ("Occasion", ["Casual"; "Formal"; "Party"; "Workwear"; "Sports"]);
   ("Feature", ["Pockets"; "Buttons"; "Zippers"; "Collar"; "Hood"]);
   ("Construction", ["Woven"; "Knitted"; "Quilted"; "Seamless"])].

Definition _add_attribute_categories (o : FashionOntology)
  : FashionOntology :=
  foldl (fun o ca =>
           let o := add_concept o ca.1 "attribute_category" None
                      (Some "Fashion") in
           foldl (fun o attr =>
                    add_concept o attr "attribute" None (Some ca.1))
                 o ca.2)
        o attribute_categories.

Definition _initialize_base_structure (o : FashionOntology)
  : FashionOntology :=
  let o := add_concept o "Fashion" "root" None None in
  let o := foldl (fun o c =>
                    add_concept o c "main_category" None (Some "Fashion"))
                 o main_categories in
  let o := foldl (fun o c =>
                    add_concept o c "sub_category" None (Some "Apparel"))
                 o apparel_categories in
  _add_attribute_categories o.

(** The store with no concept and an empty graph, after [k] readings of
    the clock. *)
Definition cleared (k : nat) : FashionOntology :=
  {| concepts := []; graph := DiGraph.empty; clock_reads := k |}.

(** [FashionOntology()] *)
Definition FashionOntology_init : FashionOntology :=
  _initialize_base_structure (cleared 0).

Definition get_children (o : FashionOntology) (nm : string) : gset string :=
  match dict_get (concepts o) nm with
  | Some c => children c
  | None => ∅
  end.

(** The [while] loop of [get_ancestry]; [None] when [fuel] iterations do
    not end it. *)
Fixpoint ancestry_walk (fuel : nat) (cs : list (string * FashionConcept))
    (current : string) (path : list string) : option (list string) :=
  match fuel with
  | O => None
  | S fuel' =>
      match dict_get cs current with
      | Some c =>
          match parent c with
          | Some p =>
              if truthy (parent c)
              then ancestry_walk fuel' cs p (path ++ [current])
              else Some path
          | None => Some path
          end
      | None => Some path
      end
  end.

Definition get_ancestry (fuel : nat) (o : FashionOntology) (nm : string)
  : option (list string) :=
  path ← ancestry_walk fuel (concepts o) nm [];
  Some (reverse (path ++ ["Fashion"])).

Definition find_related_concepts (o : FashionOntology) (nm : string)
    (max_distance : Z) : list string :=
  if negb (DiGraph.has_node (graph o) nm) then []
  else
    let related :=
      node ← DiGraph.nodes (graph o);
      if decide (node = nm) then []
      else match DiGraph.shortest_path_length (graph o) nm node with
           | Some distance =>
               if decide (Z.of_nat distance <= max_distance)
               then [(node, distance)] else []
           | None => []
           end in
    (sorted_by_distance related).*1.
End Store.

(** ** Export and import *)

(** The exported document: the concept table in dictionary order and the
    edge list of the graph. *)
Record Document : Type := mkDocument {
  doc_concepts : list (string * ConceptDict jobject);
  doc_relationships : list (string * string)
}.

(** [json.dump] of one [to_dict] record. *)
Definition dump_concept (d : ConceptDict pydict) : ConceptDict jobject :=
  {| d_name := d_name d; d_category := d_category d;
     d_attributes := dumps_dict (d_attributes d); d_parent := d_parent d;
     d_children := d_children d;
     d_created_at := d_created_at d; d_modified_at := d_modified_at d |}.

(** [export_to_json] followed by reading the file back as a document. *)
Definition export_to_json (o : FashionOntology) : Document :=
  {| doc_concepts := (fun kv => (kv.1, dump_concept (to_dict kv.2))) <$> concepts o;
     doc_relationships := DiGraph.edges (graph o) |}.

Section ImportJson.
Variable now : nat -> Z.

(** The loop of [import_from_json] over the entries of the document. *)
Definition replay (o : FashionOntology)
    (entries : list (string * ConceptDict jobject)) : FashionOntology :=
  foldl (fun o entry =>
           add_concept now o entry.1 (d_category entry.2)
             (Some (loads_dict (d_attributes entry.2)))
             (d_parent entry.2))
        o entries.

(** [import_from_json] on the document the file holds: the concept table
    and the graph are cleared, then the entries are replayed. *)
Definition import_from_json (o : FashionOntology) (data : Document)
  : FashionOntology :=
  replay (cleared (clock_reads o)) (doc_concepts data).
End ImportJson.

(** ** The moderation queue *)

(** One element of [pending_concepts]: the JSON text
    [{"name": .., "category": .., "attributes": .., "parent": ..}],
    as the document it denotes. *)
Record Proposal : Type := mkProposal {
  p_name : string;
  p_category : string;
  p_attributes : option jobject;
  p_parent : option string
}.

#[global] Instance Proposal_eq_dec : EqDecision Proposal.
Proof. solve_decision. Defined.

Record OntologyManager : Type := mkManager {
  ontology : FashionOntology;
  pending_concepts : list Proposal
}.

(** [s.add(x)] on a set kept as a duplicate-free list. *)
Definition set_add (x : Proposal) (s : list Proposal) : list Proposal :=
  if bool_decide (x ∈ s) then s else s ++ [x].

(** [s.remove(x)] *)
Definition set_remove (x : Proposal) (s : list Proposal) : list Proposal :=
  filter (fun y => y ≠ x) s.

Section Manager.
Variable now : nat -> Z.

(** The order in which a [for] loop visits a set is not specified: it is
    a parameter, constrained to visit exactly the elements of the set. *)
Variable iteration : list Proposal -> list Proposal.

(** [OntologyManager()] *)
Definition OntologyManager_init : OntologyManager :=
  {| ontology := FashionOntology_init now; pending_concepts := [] |}.

Definition suggest_new_concept (m : OntologyManager) (nm cat : string)
    (attrs : option pydict) (par : option string) : bool * OntologyManager :=
  if dict_mem (concepts (ontology m)) nm then (false, m)
  else
    let concept_data :=
      {| p_name := nm; p_category := cat;
         p_attributes := dumps_dict <$> attrs; p_parent := par |} in
    (true, {| ontology := ontology m;
              pending_concepts := set_add concept_data (pending_concepts m) |}).

(** [review_pending_concepts]: every pending text read back, as the
    tuple of its four fields. *)
Definition review_pending_concepts (m : OntologyManager)
  : list (string * string * option pydict * option string) :=
  (fun c => (p_name c, p_category c, loads_dict <$> p_attributes c,
             p_parent c)) <$> iteration (pending_concepts m).

(** The body of the [if] in [approve_concept]: the proposal is committed
    with [add_concept] and taken out of the pending set. *)
Definition commit (m : OntologyManager) (concept : Proposal)
  : OntologyManager :=
  {| ontology :=
       add_concept now (ontology m) (p_name concept) (p_category concept)
         (loads_dict <$> p_attributes concept) (p_parent concept);
     pending_concepts := set_remove concept (pending_concepts m) |}.

(** The [for] loop of [approve_concept] over the elements still to visit. *)
Fixpoint approve_loop (m : OntologyManager) (nm : string)
    (todo : list Proposal) : bool * OntologyManager :=
  match todo with
  | [] => (false, m)
  | concept :: todo' =>
      if decide (p_name concept = nm) then (true, commit m concept)
      else approve_loop m nm todo'
  end.

Definition approve_concept (m : OntologyManager) (nm : string)
  : bool * OntologyManager :=
  approve_loop m nm (iteration (pending_concepts m)).
End Manager.

(** ** Specification vocabulary *)

(** Everything of a concept but its children set. *)
Definition core (c : FashionConcept)
  : string * string * pydict * option string * Z * Z :=
  (name c, category c, attributes c, parent c, created_at c, modified_at c).

(** The keys of the concept table are pairwise distinct. *)
Definition keys_distinct (o : FashionOntology) : Prop :=
  NoDup (dict_keys (concepts o)).

(** [C] is in the children set of [P] exactly when [C] is a concept whose
    parent is [P]. *)
Definition children_consistent (o : FashionOntology) : Prop :=
  forall P kp, dict_get (concepts o) P = Some kp ->
    forall C, C ∈ children kp <->
      exists kc, dict_get (concepts o) C = Some kc /\ parent kc = Some P.

(** The parent of every concept is a concept that lists it as a child. *)
Definition parents_known (o : FashionOntology) : Prop :=
  forall C kc P, dict_get (concepts o) C = Some kc -> parent kc = Some P ->
    exists kp, dict_get (concepts o) P = Some kp /\ C ∈ children kp.

Definition store_invariant (o : FashionOntology) : Prop :=
  children_consistent o /\ parents_known o.

(** Stores grown from the cleared store by adding concepts under new names,
    each without a parent or under a concept that is already there. *)
Inductive well_built (now : nat -> Z) : FashionOntology -> Prop :=
  | wb_cleared k : well_built now (cleared k)
  | wb_root o nm cat attrs :
      well_built now o ->
      dict_get (concepts o) nm = None ->
      well_built now (add_concept now o nm cat attrs None)
  | wb_child o nm cat attrs p :
      well_built now o ->
      dict_get (concepts o) nm = None ->
      p <> "" ->
      is_Some (dict_get (concepts o) p) ->
      well_built now (add_concept now o nm cat attrs (Some p)).

(** The edges the parent fields call for: one from the parent to the
    concept, for every concept whose parent passes [if parent:]. *)
Definition parent_edges (o : FashionOntology) : list (string * string) :=
  kv ← concepts o;
  match parent kv.2 with
  | Some p => if truthy (parent kv.2) then [(p, kv.1)] else []
  | None => []
  end.

(** A clock that advances by one between readings. *)
Definition wall_clock (k : nat) : Z := Z.of_nat k.

(** The scenario store: ["Fashion"], then ["Apparel"] under it, then
    ["Dresses"] under ["Apparel"]. *)
Definition scenario (now : nat -> Z) : FashionOntology :=
  let o := add_concept now (cleared 0) "Fashion" "root" None None in
  let o := add_concept now o "Apparel" "main_category" None (Some "Fashion") in
  add_concept now o "Dresses" "sub_category" None (Some "Apparel").

(** An attribute dictionary with nested values. *)
Definition sample_attributes : pydict :=
  [("fabric", PyStr "twill"); ("sizes", PyList [PyInt 36; PyInt 38]);
   ("lining", PyDict [("removable", PyBool true)])].

(** The scenario store with one more concept, which carries attributes and
    whose parent is not a concept. *)
Definition sample_store (now : nat -> Z) : FashionOntology :=
  add_concept now (scenario now) "Trench" "sub_category"
    (Some sample_attributes) (Some "Outerwear").

(** A manager with two pending proposals for ["Velvet"] that differ in
    content. *)
Definition velvet_pending : OntologyManager :=
  let m := OntologyManager_init wall_clock in
  let m := (suggest_new_concept m "Velvet" "attribute" None (Some "Material")).2 in
  (suggest_new_concept m "Velvet" "sub_category"
     (Some [("pile", PyStr "short")]) (Some "Apparel")).2.

(** The same manager after one approval, visiting the pending set in the
    order of the list: ["Velvet"] is committed and still pending. *)
Definition velvet_twice : OntologyManager :=
  (approve_concept wall_clock (fun s => s) velvet_pending "Velvet").2.


(** ** Further operations and vocabulary *)

(** [d.update(new)]: the pairs of [new] are assigned one after the other. *)
Definition dict_update {V : Type} (d new : list (string * V))
  : list (string * V) :=
  foldl (fun d kv => dict_set d kv.1 kv.2) d new.

(** [FashionConcept.update]; [t] is the clock reading. *)
Definition update (c : FashionConcept) (attrs : pydict) (t : Z)
  : FashionConcept :=
  {| name := name c; category := category c;
     attributes := dict_update (attributes c) attrs;
     parent := parent c; children := children c;
     created_at := created_at c; modified_at := t |}.

(** The stores the operations produce: the constructor and
    [import_from_json] start from a store without concepts and, like
    [approve_concept], change it through [add_concept] only. *)
Inductive reachable (now : nat -> Z) : FashionOntology -> Prop :=
  | reach_cleared k : reachable now (cleared k)
  | reach_add o nm cat attrs par :
      reachable now o -> reachable now (add_concept now o nm cat attrs par).

(** A clock that never goes back. *)
Definition clock_monotone (now : nat -> Z) : Prop :=
  forall i j, (i <= j)%nat -> now i <= now j.

(** What [import_from_json] reads of an entry of the document. *)
Definition entry_fields (entry : string * ConceptDict jobject)
  : string * string * jobject * option string :=
  (entry.1, d_category entry.2, d_attributes entry.2, d_parent entry.2).

(** The names the loop of [get_ancestry] records from [current] on: it
    stops at a name that is no concept or has no parent to go to, and
    otherwise records the name and goes on from its parent. *)
Inductive climbs (cs : list (string * FashionConcept))
  : string -> list string -> Prop :=
  | climbs_stop current :
      (forall c, dict_get cs current = Some c -> truthy (parent c) = false) ->
      climbs cs current []
  | climbs_step current c p path :
      dict_get cs current = Some c -> parent c = Some p -> p <> "" ->
      climbs cs p path -> climbs cs current (current :: path).

(** A set of names that the parent links never leave. *)
Definition parent_closed (cs : list (string * FashionConcept))
    (S : string -> Prop) : Prop :=
  forall x, S x ->
    exists c p, dict_get cs x = Some c /\ parent c = Some p /\ p <> "" /\ S p.

(** The list [related] that [find_related_concepts] builds before sorting. *)
Definition related_pairs (g : DiGraph.t) (nm : string) (max_distance : Z)
  : list (string * nat) :=
  node ← DiGraph.nodes g;
  if decide (node = nm) then []
  else match DiGraph.shortest_path_length g nm node with
       | Some distance =>
           if decide (Z.of_nat distance <= max_distance)
           then [(node, distance)] else []
       | None => []
       end.


(** Everything of a concept but its attribute dictionary.  The dictionary
    is an object that the caller may have handed to several concepts and
    that the graph node holds as well, so a change made through one concept
    can show in another; the other fields are not shared. *)
Definition unshared (c : FashionConcept)
  : string * string * option string * gset string * Z * Z :=
  (name c, category c, parent c, children c, created_at c, modified_at c).

(** [self.concepts[nm].update(attrs)] takes the store [o] to [o']: the clock
    is read once, the concept under [nm] is updated in place, the keys of
    the table stay as they are and every other concept keeps its unshared
    fields.  Attribute dictionaries reached through other concepts or
    through the graph are left open. *)
Definition updated_in (now : nat -> Z) (o : FashionOntology) (nm : string)
    (attrs : pydict) (o' : FashionOntology) : Prop :=
  clock_reads o' = S (clock_reads o) /\
  dict_keys (concepts o') = dict_keys (concepts o) /\
  (exists c, dict_get (concepts o) nm = Some c /\
     dict_get (concepts o') nm = Some (update c attrs (now (clock_reads o)))) /\
  forall q, q <> nm ->
    unshared <$> dict_get (concepts o') q = unshared <$> dict_get (concepts o) q.

(** The stores the operations produce when stored concepts are updated as
    well: besides [add_concept], a step may update a concept of the store. *)
Inductive produced (now : nat -> Z) : FashionOntology -> Prop :=
  | prod_cleared k : produced now (cleared k)
  | prod_add o nm cat attrs par :
      produced now o -> produced now (add_concept now o nm cat attrs par)
  | prod_update o nm attrs o' :
      produced now o -> updated_in now o nm attrs o' -> produced now o'.

(** The scenario store after [concepts["Apparel"].update({"season": "summer"})]. *)
Definition scenario_updated (now : nat -> Z) : FashionOntology :=
  let o := scenario now in
  {| concepts :=
       dict_alter (fun c => update c [("season", PyStr "summer")]
                              (now (clock_reads o)))
         (concepts o) "Apparel";
     graph := graph o;
     clock_reads := S (clock_reads o) |}.

#[local] Set Warnings "-clear-no-such-hyp".

(** ** Dictionaries *)

Section DictFacts.
Context {V : Type}.
Implicit Types (d : list (string * V)) (k : string) (v : V).

Lemma dict_mem_spec d k : dict_mem d k = true <-> is_Some (dict_get d k).
Proof. unfold dict_mem. apply bool_decide_eq_true. Qed.

Lemma dict_mem_false d k : dict_mem d k = false <-> dict_get d k = None.
Proof.
  unfold dict_mem. rewrite bool_decide_eq_false, <- eq_None_not_Some. done.
Qed.

Lemma dict_get_Some_elem d k v : dict_get d k = Some v -> (k, v) ∈ d.
Proof.
  induction d as [|[k' v'] d IH]; simpl; [done|].
  case_decide as Hk; intros Hget.
  - simplify_eq. left.
  - right. auto.
Qed.

Lemma dict_get_None d k : dict_get d k = None <-> k ∉ dict_keys d.
Proof.
  unfold dict_keys. induction d as [|[k' v'] d IH]; simpl.
  - split; [intros _; apply not_elem_of_nil|done].
  - rewrite not_elem_of_cons. case_decide as Hk.
    + split; [done|]. intros [Hne _]. by destruct Hne.
    + rewrite IH. split; [intros Hd; split; [congruence|done]|by intros [_ Hd]].
Qed.

Lemma dict_get_is_Some d k : is_Some (dict_get d k) <-> k ∈ dict_keys d.
Proof.
  destruct (decide (k ∈ dict_keys d)) as [Hin|Hin].
  - split; [done|]. intros _. apply not_eq_None_Some.
    rewrite dict_get_None. auto.
  - split; [|done]. apply dict_get_None in Hin. rewrite Hin.
    intros []; done.
Qed.

Lemma dict_elem_get d k v :
  NoDup (dict_keys d) -> (k, v) ∈ d -> dict_get d k = Some v.
Proof.
  unfold dict_keys. induction d as [|[k' v'] d IH]; simpl.
  - intros _ H. by apply elem_of_nil in H.
  - rewrite NoDup_cons. intros [Hk Hd] [H|H]%elem_of_cons.
    + simplify_eq. by rewrite decide_True.
    + rewrite decide_False; [auto|]. intros ->. apply Hk.
      apply list_elem_of_fmap. by exists (k, v).
Qed.

Lemma dict_get_set d k v k' :
  dict_get (dict_set d k v) k' =
    if decide (k' = k) then Some v else dict_get d k'.
Proof.
  induction d as [|[k0 v0] d IH]; simpl.
  - repeat case_decide; congruence.
  - repeat (case_decide; simpl); try congruence.
Qed.

Lemma dict_keys_set d k v :
  dict_keys (dict_set d k v) =
    if dict_mem d k then dict_keys d else dict_keys d ++ [k].
Proof.
  induction d as [|[k0 v0] d IH]; simpl; [done|].
  unfold dict_mem in *. simpl. case_decide as Hk; simpl; [by subst|].
  unfold dict_keys in *. simpl. rewrite IH. by case_bool_decide.
Qed.

Lemma dict_get_alter (f : V -> V) d k k' :
  dict_get (dict_alter f d k) k' =
    if decide (k' = k) then f <$> dict_get d k' else dict_get d k'.
Proof.
  unfold dict_alter. induction d as [|[k0 v0] d IH]; simpl.
  - by case_decide.
  - repeat (case_decide; simpl; simplify_eq); try done.
Qed.

Lemma dict_keys_alter (f : V -> V) d k :
  dict_keys (dict_alter f d k) = dict_keys d.
Proof.
  unfold dict_keys, dict_alter. induction d as [|[k0 v0] d IH]; simpl; [done|].
  f_equal; [by case_decide|done].
Qed.
End DictFacts.

(** ** The graph *)

Module DiGraphFacts.
Import DiGraph.

Lemma elem_of_edges (g : DiGraph.t) u v :
  (u, v) ∈ edges g <->
  exists x, x ∈ g /\ node_name x = u /\ v ∈ node_succ x.
Proof.
  unfold edges. rewrite list_elem_of_bind. split.
  - intros (x & Hin & Hx). apply list_elem_of_fmap in Hin as (w & Hw & Hin).
    simplify_eq. eauto.
  - intros (x & Hx & <- & Hv). exists x. split; [|done].
    apply list_elem_of_fmap. eauto.
Qed.

Lemma edges_app (g h : DiGraph.t) : edges (g ++ h) = edges g ++ edges h.
Proof. unfold edges. apply bind_app. Qed.

Lemma edges_add_node (g : DiGraph.t) n a e :
  e ∈ edges (add_node g n a) <-> e ∈ edges g.
Proof.
  unfold add_node. destruct (has_node g n).
  - destruct e as [u v]. rewrite !elem_of_edges. split.
    + intros (x & Hx & Hu & Hv). apply list_elem_of_fmap in Hx as (y & -> & Hy).
      exists y. case_decide; simpl in *; subst; eauto.
    + intros (x & Hx & Hu & Hv).
      exists (if decide (node_name x = n)
              then mkNode n (Some a) (node_succ x) else x).
      split; [apply list_elem_of_fmap; eauto|].
      case_decide; simpl; subst; eauto.
  - rewrite edges_app, elem_of_app. unfold edges at 2. simpl.
    rewrite elem_of_nil. tauto.
Qed.

Lemma edges_touch (g : DiGraph.t) n e : e ∈ edges (touch g n) <-> e ∈ edges g.
Proof.
  unfold touch. destruct (has_node g n); [done|].
  rewrite edges_app, elem_of_app. unfold edges at 2. simpl.
  rewrite elem_of_nil. tauto.
Qed.

Lemma has_node_touch (g : DiGraph.t) n m :
  has_node (touch g n) m = true <-> n = m \/ has_node g m = true.
Proof.
  unfold touch. destruct (has_node g n) eqn:Hn.
  - split; [auto|]. intros [<-|]; done.
  - unfold has_node, nodes in *.
    rewrite !bool_decide_eq_true, fmap_app, elem_of_app.
    simpl. rewrite list_elem_of_singleton. intuition congruence.
Qed.

Lemma edges_add_edge (g : DiGraph.t) u v e :
  e ∈ edges (add_edge g u v) <-> e ∈ edges g \/ e = (u, v).
Proof.
  unfold add_edge. rewrite <- (edges_touch g u e), <- (edges_touch (touch g u) v e).
  assert (Hu : has_node (touch (touch g u) v) u = true).
  { apply has_node_touch. right. apply has_node_touch. by left. }
  generalize dependent (touch (touch g u) v). intros h Hu.
  destruct e as [a b]. rewrite !elem_of_edges. split.
  - intros (x & Hx & Ha & Hb). apply list_elem_of_fmap in Hx as (y & -> & Hy).
    case_decide as Hy'; simpl in *; subst.
    + case_bool_decide; [left; eauto|].
      apply elem_of_app in Hb as [Hb|Hb%list_elem_of_singleton].
      * left; eauto.
      * right; by subst.
    + left; eauto.
  - intros [(x & Hx & Ha & Hb)|Heq].
    + eexists. split; [apply list_elem_of_fmap; eauto|].
      case_decide; simpl; subst; [|done]. split; [done|].
      case_bool_decide; [done|]. apply elem_of_app; by left.
    + simplify_eq. unfold has_node in Hu. apply bool_decide_eq_true in Hu.
      apply list_elem_of_fmap in Hu as (x & Hx & Hin).
      eexists. split; [apply list_elem_of_fmap; eauto|].
      rewrite decide_True by done. simpl. split; [done|].
      case_bool_decide; [done|]. apply elem_of_app; right. by left.
Qed.
End DiGraphFacts.

(** ** [add_concept] *)

Section AddConcept.
Variable now : nat -> Z.
Implicit Types (o : FashionOntology) (nm cat p q : string).

Lemma truthy_Some p : truthy (Some p) = true <-> p <> "".
Proof.
  unfold truthy. rewrite negb_true_iff, bool_decide_eq_false. done.
Qed.

Lemma add_concept_clock o nm cat attrs par :
  clock_reads (add_concept now o nm cat attrs par) = S (S (clock_reads o)).
Proof. unfold add_concept. destruct par; [case_match|]; done. Qed.

(** The concept table after [add_concept], by cases on whether the
    children set of the parent is touched. *)
Lemma add_concept_get o nm cat attrs par q :
  let fresh := FashionConcept_init nm cat attrs par
                 (now (clock_reads o)) (now (S (clock_reads o))) in
  let base := if decide (q = nm) then Some fresh
              else dict_get (concepts o) q in
  dict_get (concepts (add_concept now o nm cat attrs par)) q =
    if bool_decide (par = Some q /\ q <> "") then add_child nm <$> base
    else base.
Proof.
  intros fresh base. unfold add_concept. fold fresh.
  destruct par as [p|]; [destruct (truthy (Some p)) eqn:Hp|]; simpl.
  - apply truthy_Some in Hp.
    destruct (dict_mem (dict_set (concepts o) nm fresh) p) eqn:Hmem; simpl.
    + rewrite dict_get_alter, dict_get_set. fold base.
      case_decide; case_bool_decide; try done; [|destruct_and!; congruence].
      subst. exfalso; auto.
    + apply dict_mem_false in Hmem. rewrite dict_get_set. fold base.
      case_bool_decide as Hq; [|done]. destruct Hq as [[= ->] _].
      rewrite dict_get_set in Hmem. subst base. by rewrite Hmem.
  - rewrite dict_get_set. fold base.
    rewrite bool_decide_eq_false_2; [done|]. intros [[= ->] Hq].
    apply truthy_Some in Hq. congruence.
  - rewrite dict_get_set. fold base.
    first [done | case_bool_decide as H; [by destruct H|done]].
Qed.

Lemma core_add_child nm c : core (add_child nm c) = core c.
Proof. done. Qed.

Lemma add_concept_core o nm cat attrs par q :
  core <$> dict_get (concepts (add_concept now o nm cat attrs par)) q =
    if decide (q = nm)
    then Some (nm, cat, or_empty attrs, par,
               now (clock_reads o), now (S (clock_reads o)))
    else core <$> dict_get (concepts o) q.
Proof.
  rewrite add_concept_get. simpl.
  case_bool_decide; case_decide; simpl; try done.
  - by destruct (dict_get (concepts o) q).
Qed.

Lemma add_concept_keys o nm cat attrs par :
  dict_keys (concepts (add_concept now o nm cat attrs par)) =
    if dict_mem (concepts o) nm then dict_keys (concepts o)
    else dict_keys (concepts o) ++ [nm].
Proof.
  unfold add_concept. destruct par as [p|];
    [destruct (truthy (Some p)); simpl; [case_match|]|]; simpl;
    rewrite ?dict_keys_alter; apply dict_keys_set.
Qed.

Lemma add_concept_keys_distinct o nm cat attrs par :
  keys_distinct o -> keys_distinct (add_concept now o nm cat attrs par).
Proof.
  unfold keys_distinct. rewrite add_concept_keys. intros Hnd.
  destruct (dict_mem (concepts o) nm) eqn:Hmem; [done|].
  apply dict_mem_false, dict_get_None in Hmem.
  apply NoDup_app. split_and!; [done| |apply NoDup_singleton].
  intros x Hx ->%list_elem_of_singleton. done.
Qed.

Lemma keys_distinct_cleared k : keys_distinct (cleared k).
Proof. apply NoDup_nil_2. Qed.

Lemma replay_keys_distinct o entries :
  keys_distinct o -> keys_distinct (replay now o entries).
Proof.
  revert o. induction entries as [|x entries IH]; intros o Ho; simpl; [done|].
  apply IH. by apply add_concept_keys_distinct.
Qed.

Lemma import_keys_distinct o data :
  keys_distinct (import_from_json now o data).
Proof. apply replay_keys_distinct, keys_distinct_cleared. Qed.

Lemma add_concept_edges o nm cat attrs par e :
  e ∈ DiGraph.edges (graph (add_concept now o nm cat attrs par)) <->
  e ∈ DiGraph.edges (graph o) \/
  (truthy par = true /\ par = Some e.1 /\ e.2 = nm).
Proof.
  unfold add_concept. destruct par as [p|].
  - destruct (truthy (Some p)) eqn:Hp; cbn [graph].
    + rewrite DiGraphFacts.edges_add_edge, DiGraphFacts.edges_add_node.
      destruct e as [u v]. simpl. split; intros [H|H]; auto.
      * simplify_eq. auto.
      * destruct H as (_ & [= ->] & ->). auto.
    + rewrite DiGraphFacts.edges_add_node. split; [auto|].
      intros [H|(H & _)]; done.
  - cbn [graph]. rewrite DiGraphFacts.edges_add_node. split; [auto|].
    intros [H|(H & _)]; done.
Qed.
End AddConcept.

(** ** Ancestry *)

Section Ancestry.
Implicit Types (o : FashionOntology) (cs : list (string * FashionConcept)).

(** The walk records only concepts that have a parent to go to. *)
Lemma ancestry_walk_records fuel cs current path path' x :
  ancestry_walk fuel cs current path = Some path' ->
  x ∈ path' ->
  x ∈ path \/ exists c, dict_get cs x = Some c /\ truthy (parent c) = true.
Proof.
  revert current path. induction fuel as [|fuel IH]; intros current path; simpl.
  - done.
  - destruct (dict_get cs current) as [c|] eqn:Hc; [|intros [= <-]; auto].
    destruct (parent c) as [p|] eqn:Hp; [|intros [= <-]; auto].
    destruct (truthy (Some p)) eqn:Ht; [|intros [= <-]; auto].
    intros Hwalk Hx. destruct (IH _ _ Hwalk Hx) as [Hin|Hex]; [|auto].
    apply elem_of_app in Hin as [Hin|Hin%list_elem_of_singleton]; [auto|].
    subst. right. exists c. by rewrite Hp.
Qed.

(** C1 (amended).  In a store whose root concept ["Fashion"] has no parent
    (the seeded ontology is one), [get_ancestry("Fashion")] ends at once
    and returns the one-element list [["Fashion"]]: the loop records only
    concepts that have a parent, and the root label is appended once after
    it.  More generally every ancestry the function returns starts with the
    root label and does not contain it a second time. *)
Theorem get_ancestry_root_once o :
  (forall c, dict_get (concepts o) "Fashion" = Some c ->
             truthy (parent c) = false) ->
  (forall fuel, get_ancestry (S fuel) o "Fashion" = Some ["Fashion"]) /\
  (forall fuel nm l, get_ancestry fuel o nm = Some l ->
     exists l', l = "Fashion" :: l' /\ "Fashion" ∉ l').
Proof.
  intros Hroot. split.
  - intros fuel. unfold get_ancestry. simpl.
    destruct (dict_get (concepts o) "Fashion") as [c|] eqn:Hc; [|done].
    specialize (Hroot c eq_refl). destruct (parent c); [|done].
    by rewrite Hroot.
  - intros fuel nm l. unfold get_ancestry.
    destruct (ancestry_walk fuel (concepts o) nm []) as [path|] eqn:Hwalk;
      simpl; [|done].
    intros [= <-]. rewrite reverse_snoc. eexists; split; [done|].
    rewrite elem_of_reverse. intros Hin.
    destruct (ancestry_walk_records _ _ _ _ _ _ Hwalk Hin) as [H|(c & Hc & Ht)].
    + by apply elem_of_nil in H.
    + rewrite (Hroot c Hc) in Ht. done.
Qed.

Lemma get_ancestry_root_once_witness :
  get_ancestry 1 (FashionOntology_init wall_clock) "Fashion"
    = Some ["Fashion"].
Proof.
  apply (get_ancestry_root_once (FashionOntology_init wall_clock)).
  intros c Hc. vm_compute in Hc. by simplify_eq.
Defined.

Lemma get_ancestry_root_not_twice :
  get_ancestry 8 (FashionOntology_init wall_clock) "Fashion"
    = Some ["Fashion"] /\
  get_ancestry 8 (FashionOntology_init wall_clock) "Fashion"
    <> Some ["Fashion"; "Fashion"].
Proof. split; [by vm_compute|]. vm_compute. discriminate. Qed.

Example get_ancestry_dresses :
  get_ancestry 8 (scenario wall_clock) "Dresses"
    = Some ["Fashion"; "Apparel"; "Dresses"].
Proof. by vm_compute. Qed.

(** An unknown name has the root alone as its ancestry. *)
Example get_ancestry_unknown :
  get_ancestry 8 (FashionOntology_init wall_clock) "Velvet"
    = Some ["Fashion"].
Proof. by vm_compute. Qed.

(** ["Casual"] is filed under ["Occasion"], its second parent. *)
Example get_ancestry_casual :
  get_ancestry 8 (FashionOntology_init wall_clock) "Casual"
    = Some ["Fashion"; "Occasion"; "Casual"].
Proof. by vm_compute. Qed.
End Ancestry.

(** ** The children sets and the parent fields *)

Section Invariant.
Variable now : nat -> Z.
Implicit Types (o : FashionOntology) (nm cat p q : string).

Lemma add_concept_parent o nm cat attrs par q :
  parent <$> dict_get (concepts (add_concept now o nm cat attrs par)) q =
    if decide (q = nm) then Some par else parent <$> dict_get (concepts o) q.
Proof.
  pose proof (add_concept_core now o nm cat attrs par q) as H.
  destruct (dict_get (concepts (add_concept now o nm cat attrs par)) q),
    (decide (q = nm)), (dict_get (concepts o) q);
    simpl in *; unfold core in *; congruence.
Qed.

Lemma add_concept_known o nm cat attrs par q :
  is_Some (dict_get (concepts (add_concept now o nm cat attrs par)) q) <->
  q = nm \/ is_Some (dict_get (concepts o) q).
Proof.
  rewrite !dict_get_is_Some, add_concept_keys.
  destruct (dict_mem (concepts o) nm) eqn:Hmem.
  - apply dict_mem_spec, dict_get_is_Some in Hmem.
    split; [auto|]. intros [->|]; done.
  - rewrite elem_of_app, list_elem_of_singleton. tauto.
Qed.

Lemma add_concept_children o nm cat attrs par q k :
  dict_get (concepts (add_concept now o nm cat attrs par)) q = Some k ->
  children k =
    (if decide (q = nm) then ∅ else get_children o q) ∪
    (if bool_decide (par = Some q /\ q <> "") then {[nm]} else ∅).
Proof.
  rewrite add_concept_get. unfold get_children.
  case_bool_decide; case_decide; simpl;
    destruct (dict_get (concepts o) q); simpl; intros [= <-]; simpl;
    set_solver.
Qed.

Lemma parent_lookup o C P :
  (exists kc, dict_get (concepts o) C = Some kc /\ parent kc = Some P) <->
  parent <$> dict_get (concepts o) C = Some (Some P).
Proof.
  destruct (dict_get (concepts o) C) as [kc|]; simpl.
  - split; [intros (? & [= <-] & ->); done|intros [= ?]; eauto].
  - split; [intros (? & [=] & _)|done].
Qed.

Lemma store_invariant_add o nm cat attrs par :
  store_invariant o ->
  dict_get (concepts o) nm = None ->
  (forall p, par = Some p -> p <> "" /\ is_Some (dict_get (concepts o) p)) ->
  store_invariant (add_concept now o nm cat attrs par).
Proof.
  intros [Hcc Hpk] Hfresh Hpar.
  assert (Hno : forall C, parent <$> dict_get (concepts o) C <> Some (Some nm)).
  { intros C HC. apply parent_lookup in HC as (kc & HC & HP).
    destruct (Hpk _ _ _ HC HP) as (kp & Hkp & _). congruence. }
  split.
  - intros P kp' HP C. rewrite parent_lookup, add_concept_parent.
    rewrite (add_concept_children _ _ _ _ _ _ _ HP).
    assert (HP' : is_Some (dict_get (concepts (add_concept now o nm cat attrs par)) P))
      by eauto.
    apply add_concept_known in HP'.
    assert (Hold : P <> nm -> forall C', C' ∈ get_children o P <->
              parent <$> dict_get (concepts o) C' = Some (Some P)).
    { intros HPn C'. destruct HP' as [?|[kp Hkp]]; [done|].
      unfold get_children. rewrite Hkp, <- parent_lookup. by apply Hcc. }
    destruct (decide (C = nm)) as [->|HC].
    + assert (Hnm : forall P', P' <> nm -> nm ∉ get_children o P').
      { intros P' HPn. unfold get_children.
        destruct (dict_get (concepts o) P') as [kp|] eqn:Hkp; [|set_solver].
        intros Hin. apply (Hcc _ _ Hkp) in Hin as (kc & Hkc & _). congruence. }
      case_bool_decide as Hb.
      * destruct Hb as [-> _]. split; [done|]. set_solver.
      * split.
        -- intros Hin. exfalso. case_decide as HPn; [set_solver|].
           apply Hnm in HPn. set_solver.
        -- intros [= ->]. exfalso. apply Hb. split; [done|].
           by apply (Hpar P).
    + assert (Hex : C ∉ (if bool_decide (par = Some P /\ P <> "")
                          then {[nm]} else ∅ : gset string)).
      { case_bool_decide; set_solver. }
      destruct (decide (P = nm)) as [HPn|HPn].
      * subst P. split; [set_solver|]. intros HC'. by apply Hno in HC'.
      * rewrite <- (Hold HPn C). set_solver.
  - intros C kc P HC HP.
    assert (HCP : parent <$> dict_get (concepts (add_concept now o nm cat attrs par)) C
                  = Some (Some P)) by (by rewrite HC; simpl; rewrite HP).
    rewrite add_concept_parent in HCP.
    destruct (decide (C = nm)) as [->|HCn].
    + injection HCP as ->. destruct (Hpar P eq_refl) as [HPe [kp Hkp]].
      assert (HPn : P <> nm) by congruence.
      assert (HP' : is_Some (dict_get (concepts (add_concept now o nm cat attrs (Some P))) P)).
      { apply add_concept_known. right. eauto. }
      destruct HP' as [kp' Hkp']. exists kp'. split; [done|].
      rewrite (add_concept_children _ _ _ _ _ _ _ Hkp').
      rewrite bool_decide_eq_true_2 by done. set_solver.
    + apply parent_lookup in HCP as (kc0 & Hkc0 & HP0).
      destruct (Hpk _ _ _ Hkc0 HP0) as (kp & Hkp & Hin).
      assert (HPn : P <> nm) by congruence.
      assert (HP' : is_Some (dict_get (concepts (add_concept now o nm cat attrs par)) P)).
      { apply add_concept_known. right. eauto. }
      destruct HP' as [kp' Hkp']. exists kp'. split; [done|].
      rewrite (add_concept_children _ _ _ _ _ _ _ Hkp').
      rewrite decide_False by done. unfold get_children. rewrite Hkp.
      set_solver.
Qed.

Lemma store_invariant_cleared k : store_invariant (cleared k).
Proof. split; [intros P kp [=]|intros C kc P [=]]. Qed.





End Invariant.




(** ** Distances *)

Section Distance.
Import DiGraph.
Implicit Types (g : DiGraph.t) (s t : string).

Lemma level_walk g s t k : t ∈ level g s k <-> walk g s t k.
Proof.
  revert t. induction k as [|k IH]; intros t; simpl.
  - rewrite list_elem_of_singleton. split; [intros ->; constructor|].
    inversion 1; by subst.
  - rewrite elem_of_remove_dups, list_elem_of_bind. split.
    + intros (x & Ht & Hx). apply IH in Hx. by econstructor.
    + inversion 1 as [|x y k' Hx Hy]; subst. exists x. by rewrite IH.
Qed.

Lemma first_level_Some g s t d0 fuel d :
  first_level g s t d0 fuel = Some d ->
  (d0 <= d < d0 + fuel)%nat /\ t ∈ level g s d /\
  forall k, (d0 <= k < d)%nat -> t ∉ level g s k.
Proof.
  revert d0. induction fuel as [|fuel IH]; intros d0; simpl; [done|].
  case_bool_decide as Hin.
  - intros [= <-]. split_and!; [lia..|done|intros; lia].
  - intros H. destruct (IH _ H) as (Hd & Ht & Hmin). split_and!; [lia..|done|].
    intros k Hk. destruct (decide (k = d0)) as [->|]; [done|].
    apply Hmin. lia.
Qed.

Lemma first_level_None g s t d0 fuel :
  first_level g s t d0 fuel = None ->
  forall k, (d0 <= k < d0 + fuel)%nat -> t ∉ level g s k.
Proof.
  revert d0. induction fuel as [|fuel IH]; intros d0; simpl; [lia|].
  case_bool_decide as Hin; [done|]. intros H k Hk.
  destruct (decide (k = d0)) as [->|]; [done|]. apply (IH _ H). lia.
Qed.

(** What [shortest_path_length] returns is the length of a shortest walk. *)
Lemma shortest_path_length_Some g s t d :
  shortest_path_length g s t = Some d ->
  walk g s t d /\ forall k, (k < d)%nat -> ~ walk g s t k.
Proof.
  intros H. apply first_level_Some in H as (_ & Ht & Hmin).
  split; [by apply level_walk|]. intros k Hk. rewrite <- level_walk.
  apply Hmin. lia.
Qed.

Lemma successors_has_node g x y : y ∈ successors g x -> x ∈ nodes g.
Proof.
  unfold nodes. induction g as [|n g IH]; simpl.
  - intros H. by apply elem_of_nil in H.
  - case_decide as Hn; [intros _; subst; left|]. intros H. right. auto.
Qed.

Lemma walk_app g a b c m n :
  walk g a b m -> walk g b c n -> walk g a c (m + n).
Proof.
  intros Hab. induction 1 as [|x y k Hbx IH Hy].
  - by rewrite Nat.add_0_r.
  - rewrite Nat.add_succ_r. by econstructor.
Qed.

(** The nodes a walk goes through, in order. *)
Lemma walk_trace g s t k :
  walk g s t k ->
  exists l, length l = S k /\ l !! O = Some s /\ l !! k = Some t /\
    (forall i a, (i < k)%nat -> l !! i = Some a -> a ∈ nodes g) /\
    (forall i a, l !! i = Some a -> walk g s a i /\ walk g a t (k - i)).
Proof.
  induction 1 as [|x y k Hx (l & Hlen & Hs & Hlast & Hin & Hcut) Hy].
  - exists [s]. split_and!; [done..|lia|].
    intros [|i] a [=]. subst. split; constructor.
  - exists (l ++ [y]). split_and!.
    + rewrite length_app. simpl. lia.
    + rewrite lookup_app_l by lia. done.
    + rewrite lookup_app_r by lia. by replace (S k - length l)%nat with O by lia.
    + intros i a Hi Ha. destruct (decide (i < k)%nat) as [Hlt|Hge].
      * rewrite lookup_app_l in Ha by lia. eauto.
      * assert (i = k) as -> by lia. rewrite lookup_app_l in Ha by lia.
        assert (a = x) as -> by congruence.
        by eapply successors_has_node.
    + intros i a Ha. destruct (decide (i < S k)%nat) as [Hlt|Hge].
      * rewrite lookup_app_l in Ha by lia.
        destruct (Hcut _ _ Ha) as [H1 H2]. split; [done|].
        replace (S k - i)%nat with (S (k - i)) by lia. by econstructor.
      * rewrite lookup_app_r in Ha by lia.
        destruct (i - length l)%nat as [|j] eqn:Hj; [|done].
        injection Ha as <-. assert (i = S k) as -> by lia.
        rewrite Nat.sub_diag. split; [by econstructor|constructor].
Qed.

Lemma repeated_or_NoDup (l : list string) :
  NoDup l \/
  exists i j a, (i < j)%nat /\ l !! i = Some a /\ l !! j = Some a.
Proof.
  induction l as [|a l [IH|(i & j & b & Hij & Hi & Hj)]].
  - left. constructor.
  - destruct (decide (a ∈ l)) as [Hin|Hin].
    + right. apply list_elem_of_lookup in Hin as [j Hj].
      exists O, (S j), a. split_and!; [lia|done..].
    + left. by constructor.
  - right. exists (S i), (S j), b. split_and!; [lia|done..].
Qed.

(** A walk to a node of the graph can be cut down to one with fewer edges
    than the graph has nodes: a longer one goes through some node twice. *)
Lemma walk_short g s t k :
  t ∈ nodes g -> walk g s t k ->
  exists k', (k' < length g)%nat /\ walk g s t k'.
Proof.
  intros Ht. induction k as [k IH] using lt_wf_ind. intros Hwalk.
  destruct (decide (k < length g)%nat) as [|Hlong]; [eauto|].
  destruct (walk_trace _ _ _ _ Hwalk) as (l & Hlen & _ & Hlast & Hin & Hcut).
  destruct (repeated_or_NoDup l) as [Hnd|(i & j & a & Hij & Hi & Hj)].
  - exfalso. assert (Hsub : l ⊆ nodes g).
    { intros a [i Hi]%list_elem_of_lookup.
      destruct (decide (i < k)%nat); [eauto|].
      assert (i < length l)%nat by (by eapply lookup_lt_Some).
      assert (i = k) as -> by lia. congruence. }
    pose proof (submseteq_length _ _ (NoDup_submseteq _ _ Hnd Hsub)) as Hle.
    unfold nodes in Hle. rewrite length_fmap in Hle. lia.
  - assert (j < length l)%nat by (by eapply lookup_lt_Some).
    destruct (Hcut _ _ Hi) as [Hsa _]. destruct (Hcut _ _ Hj) as [_ Hat].
    apply (IH (i + (k - j))%nat); [lia|]. by eapply walk_app.
Qed.

(** [NetworkXNoPath]: no walk at all leads to the node. *)
Lemma shortest_path_length_None g s t :
  t ∈ nodes g -> shortest_path_length g s t = None ->
  forall k, ~ walk g s t k.
Proof.
  intros Ht Hnone k Hwalk.
  destruct (walk_short _ _ _ _ Ht Hwalk) as (k' & Hk' & Hwalk').
  apply level_walk in Hwalk'. revert Hwalk'.
  apply (first_level_None _ _ _ _ _ Hnone). lia.
Qed.

Lemma insert_by_distance_perm x l : insert_by_distance x l ≡ₚ x :: l.
Proof.
  induction l as [|y l IH]; simpl; [done|].
  case_decide; [done|]. rewrite IH. apply Permutation_swap.
Qed.

Lemma sorted_by_distance_perm l : sorted_by_distance l ≡ₚ l.
Proof.
  induction l as [|x l IH]; simpl; [done|].
  by rewrite insert_by_distance_perm, IH.
Qed.

(** C9.  Raising [max_distance] can only add names to what
    [find_related_concepts] returns: every name returned for [d1] is
    returned for every [d2 >= d1], and the result is no longer for [d1] than
    for [d2]. *)
Theorem find_related_monotone (o : FashionOntology) (nm : string) (d1 d2 : Z) :
  d1 <= d2 ->
  find_related_concepts o nm d1 ⊆ find_related_concepts o nm d2 /\
  (length (find_related_concepts o nm d1)
     <= length (find_related_concepts o nm d2))%nat.
Proof.
  intros Hd.
  assert (Hsub : find_related_concepts o nm d1 ⊆+ find_related_concepts o nm d2).
  { unfold find_related_concepts. destruct (negb _); [done|].
    apply fmap_submseteq. rewrite !sorted_by_distance_perm.
    apply sublist_submseteq.
    induction (nodes (graph o)) as [|x l IH]; simpl; [done|].
    apply sublist_app; [|done].
    case_decide; [done|].
    destruct (shortest_path_length (graph o) nm x) as [d|]; [|done].
    repeat case_decide; try done; [lia|apply sublist_nil_l]. }
  split.
  - intros x Hx. by eapply elem_of_submseteq.
  - by apply submseteq_length.
Qed.

Lemma find_related_monotone_witness :
  find_related_concepts (FashionOntology_init wall_clock) "Fashion" 1
    ⊆ find_related_concepts (FashionOntology_init wall_clock) "Fashion" 2 /\
  (length (find_related_concepts (FashionOntology_init wall_clock) "Fashion" 1)
     <= length (find_related_concepts (FashionOntology_init wall_clock) "Fashion" 2))%nat.
Proof.
  apply (find_related_monotone (FashionOntology_init wall_clock) "Fashion" 1 2).
  lia.
Defined.

(** C3 (amended).  In the store holding ["Fashion"], ["Apparel"] under
    ["Fashion"] and ["Dresses"] under ["Apparel"],
    [find_related_concepts("Apparel", 1)] returns exactly [["Dresses"]], at
    distance 1.  The graph has the two edges parent -> child and distances
    follow the edges: no walk leads from ["Apparel"] to ["Fashion"], so
    ["Fashion"] is not returned. *)
Theorem find_related_scenario (now : nat -> Z) :
  find_related_concepts (scenario now) "Apparel" 1 = ["Dresses"] /\
  edges (graph (scenario now))
    = [("Fashion", "Apparel"); ("Apparel", "Dresses")] /\
  shortest_path_length (graph (scenario now)) "Apparel" "Dresses" = Some 1%nat /\
  shortest_path_length (graph (scenario now)) "Apparel" "Fashion" = None /\
  forall k, ~ walk (graph (scenario now)) "Apparel" "Fashion" k.
Proof.
  split_and!; try by vm_compute.
  apply shortest_path_length_None; [|by vm_compute].
  apply (bool_decide_unpack _). by vm_compute.
Qed.

Lemma find_related_scenario_not_parent :
  ~ find_related_concepts (scenario wall_clock) "Apparel" 1
      ≡ₚ ["Fashion"; "Dresses"].
Proof. intros H. apply Permutation_length in H. by vm_compute in H. Qed.

(** On the seeded ontology the neighbours of ["Apparel"] within distance 1
    are its eight sub-categories, in the order they were added. *)
Example find_related_seeded :
  find_related_concepts (FashionOntology_init wall_clock) "Apparel" 1
    = ["Dresses"; "Tops"; "Bottoms"; "Outerwear"; "Suits"; "Activewear";
       "Intimates"; "Swimwear"] /\
  find_related_concepts (FashionOntology_init wall_clock) "Apparel" 0 = [] /\
  find_related_concepts (FashionOntology_init wall_clock) "Velvet" 2 = [].
Proof. by vm_compute. Qed.
End Distance.

(** ** Replaying a document *)

Section Replay.
Variable now : nat -> Z.
Implicit Types (o acc : FashionOntology) (nm : string)
  (es : list (string * ConceptDict jobject)).

Lemma replay_snoc acc es x :
  replay now acc (es ++ [x]) =
    add_concept now (replay now acc es) x.1 (d_category x.2)
      (Some (loads_dict (d_attributes x.2))) (d_parent x.2).
Proof. unfold replay. by rewrite foldl_app. Qed.

Lemma replay_clock acc es :
  clock_reads (replay now acc es) = (clock_reads acc + 2 * length es)%nat.
Proof.
  induction es as [|x es IH] using rev_ind; [simpl; lia|].
  rewrite replay_snoc, add_concept_clock, IH, length_app. simpl. lia.
Qed.

Lemma replay_keys acc es :
  NoDup (dict_keys (concepts acc) ++ es.*1) ->
  dict_keys (concepts (replay now acc es)) = dict_keys (concepts acc) ++ es.*1.
Proof.
  induction es as [|x es IH] using rev_ind; intros Hnd.
  - simpl. by rewrite app_nil_r.
  - rewrite fmap_app, app_assoc in Hnd. apply NoDup_app in Hnd as (Hnd & Hx & _).
    rewrite replay_snoc, add_concept_keys, IH by done.
    destruct (dict_mem _ _) eqn:Hmem.
    + apply dict_mem_spec, dict_get_is_Some in Hmem. rewrite IH in Hmem by done.
      exfalso. apply (Hx _ Hmem). simpl. left.
    + by rewrite fmap_app, app_assoc.
Qed.

Lemma replay_core acc es i nm d :
  NoDup es.*1 ->
  es !! i = Some (nm, d) ->
  core <$> dict_get (concepts (replay now acc es)) nm =
    Some (nm, d_category d, loads_dict (d_attributes d), d_parent d,
          now (clock_reads acc + 2 * i)%nat,
          now (S (clock_reads acc + 2 * i))%nat).
Proof.
  induction es as [|x es IH] using rev_ind; intros Hnd Hi; [done|].
  rewrite fmap_app in Hnd. apply NoDup_app in Hnd as (Hnd & Hx & _).
  rewrite replay_snoc, add_concept_core.
  destruct (decide (i < length es)%nat) as [Hlt|Hge].
  - rewrite lookup_app_l in Hi by done.
    rewrite decide_False; [by apply IH|]. intros ->.
    apply (Hx x.1); [|simpl; left].
    apply list_elem_of_fmap. exists (x.1, d). split; [done|].
    by eapply list_elem_of_lookup_2.
  - rewrite lookup_app_r in Hi by lia.
    destruct (i - length es)%nat as [|j] eqn:Hj; [|done].
    simpl in Hi. injection Hi as ->. simpl.
    rewrite decide_True by done. rewrite replay_clock.
    replace i with (length es) by lia. done.
Qed.

Lemma replay_edges acc es e :
  e ∈ DiGraph.edges (graph (replay now acc es)) <->
  e ∈ DiGraph.edges (graph acc) \/
  exists d, (e.2, d) ∈ es /\ truthy (d_parent d) = true /\
            d_parent d = Some e.1.
Proof.
  induction es as [|x es IH] using rev_ind.
  - simpl. split; [auto|]. intros [H|(d & H & _)]; [done|].
    by apply elem_of_nil in H.
  - rewrite replay_snoc, add_concept_edges, IH. split.
    + intros [[H|(d & Hd & Ht)]|(Ht & Hp & He)]; [auto|right..].
      * exists d. split; [apply elem_of_app; by left|done].
      * exists x.2. split; [|done]. apply elem_of_app; right.
        rewrite He. destruct x; left.
    + intros [H|(d & Hd & Ht & Hp)]; [auto|].
      apply elem_of_app in Hd as [Hd|Hd%list_elem_of_singleton]; [eauto 6|].
      right. by subst x.
Qed.

End Replay.

(** ** Export followed by import *)

Section RoundTrip.
Variable now : nat -> Z.
Implicit Types (o self : FashionOntology) (nm : string).

Lemma export_keys o : (doc_concepts (export_to_json o)).*1 = dict_keys (concepts o).
Proof.
  unfold export_to_json, dict_keys. simpl. rewrite <- list_fmap_compose.
  by apply list_fmap_ext.
Qed.

Lemma export_lookup o i nm c :
  concepts o !! i = Some (nm, c) ->
  doc_concepts (export_to_json o) !! i = Some (nm, dump_concept (to_dict c)).
Proof. intros H. unfold export_to_json. simpl. by rewrite list_lookup_fmap, H. Qed.

Lemma elem_of_parent_edges o e :
  e ∈ parent_edges o <->
  exists c, (e.2, c) ∈ concepts o /\ truthy (parent c) = true /\
            parent c = Some e.1.
Proof.
  unfold parent_edges. rewrite list_elem_of_bind. split.
  - intros ([nm c] & He & Hin). simpl in He.
    destruct (parent c) as [p|] eqn:Hp; [|by apply elem_of_nil in He].
    destruct (truthy (Some p)) eqn:Ht; [|by apply elem_of_nil in He].
    apply list_elem_of_singleton in He as ->. simpl. exists c.
    by rewrite Hp.
  - intros (c & Hin & Ht & Hp). exists (e.2, c). split; [|done]. simpl.
    rewrite Hp in *. rewrite Ht. destruct e; left.
Qed.

Lemma import_keys self o :
  keys_distinct o ->
  dict_keys (concepts (import_from_json now self (export_to_json o)))
    = dict_keys (concepts o).
Proof.
  intros Hnd. unfold import_from_json.
  rewrite replay_keys; rewrite export_keys; done.
Qed.

Lemma import_core self o nm c :
  keys_distinct o ->
  dict_get (concepts o) nm = Some c ->
  exists c' i,
    dict_get (concepts (import_from_json now self (export_to_json o))) nm = Some c' /\
    concepts o !! i = Some (nm, c) /\
    core c' = (nm, category c, loads_dict (dumps_dict (attributes c)), parent c,
               now (clock_reads self + 2 * i)%nat,
               now (S (clock_reads self + 2 * i))%nat).
Proof.
  intros Hnd Hc. apply dict_get_Some_elem, list_elem_of_lookup in Hc as [i Hi].
  pose proof (replay_core now (cleared (clock_reads self)) _ i nm _
                ltac:(by rewrite export_keys) (export_lookup _ _ _ _ Hi)) as H.
  unfold import_from_json.
  destruct (dict_get _ nm) as [c'|]; [|done]. exists c', i.
  split_and!; [done..|]. apply (inj Some). exact H.
Qed.

(** C4.  For a store whose attribute dictionaries survive JSON
    serialization, importing what [export_to_json] wrote gives a store with
    the same concept names (in the same order) and, under every name, the
    same category, attributes and parent.  The graph of the imported store
    has exactly the edges that the parent fields call for, and these are the
    same before and after: the [children] lists and the [relationships]
    array of the document play no part. *)
Theorem export_import_roundtrip self o :
  keys_distinct o ->
  Forall (fun kv => survives (attributes kv.2)) (concepts o) ->
  let o' := import_from_json now self (export_to_json o) in
  dict_keys (concepts o') = dict_keys (concepts o) /\
  (forall nm c, dict_get (concepts o) nm = Some c ->
     exists c', dict_get (concepts o') nm = Some c' /\
       category c' = category c /\ attributes c' = attributes c /\
       parent c' = parent c) /\
  (forall e, e ∈ DiGraph.edges (graph o') <-> e ∈ parent_edges o) /\
  (forall e, e ∈ parent_edges o' <-> e ∈ parent_edges o).
Proof.
  intros Hnd Hsurv o'.
  assert (Hkeys : dict_keys (concepts o') = dict_keys (concepts o))
    by by apply import_keys.
  assert (Hfields : forall nm c, dict_get (concepts o) nm = Some c ->
     exists c', dict_get (concepts o') nm = Some c' /\
       category c' = category c /\ attributes c' = attributes c /\
       parent c' = parent c).
  { intros nm c Hc.
    destruct (import_core self o nm c Hnd Hc) as (c' & i & Hc' & Hi & Hcore).
    assert (Hs : survives (attributes c)).
    { rewrite Forall_forall in Hsurv.
      apply (Hsurv (nm, c)). by eapply list_elem_of_lookup_2. }
    exists c'. split; [done|]. unfold core, survives in *.
    split_and!; congruence. }
  assert (Hnd' : keys_distinct o') by (unfold keys_distinct; by rewrite Hkeys).
  split_and!; [done|done| |].
  - intros e. unfold o', import_from_json.
    rewrite replay_edges, elem_of_parent_edges. simpl. split.
    + intros [H|(d & Hd & Ht & Hp)]; [by apply elem_of_nil in H|].
      apply list_elem_of_fmap in Hd as ([nm c] & [= -> ->] & Hin).
      exists c. auto.
    + intros (c & Hin & Ht & Hp). right.
      exists (dump_concept (to_dict c)). split; [|done].
      apply list_elem_of_fmap. by exists (e.2, c).
  - intros e. rewrite !elem_of_parent_edges. split.
    + intros (c' & Hin & Ht & Hp). apply dict_elem_get in Hin; [|done].
      assert (Hsome : is_Some (dict_get (concepts o) e.2)).
      { apply dict_get_is_Some. rewrite <- Hkeys. apply dict_get_is_Some. eauto. }
      destruct Hsome as [c Hc]. destruct (Hfields _ _ Hc) as (c'' & Hc'' & _ & _ & Hpar).
      exists c. split; [by apply dict_get_Some_elem|]. simplify_eq.
      by rewrite <- Hpar.
    + intros (c & Hin & Ht & Hp). apply dict_elem_get in Hin; [|done].
      destruct (Hfields _ _ Hin) as (c' & Hc' & _ & _ & Hpar).
      exists c'. split; [by apply dict_get_Some_elem|]. by rewrite Hpar.
Qed.

(** C5 (amended).  Import does not read the timestamps of the document:
    the concept re-created for the entry at position [i] is stamped with the
    two clock readings taken when that entry is replayed, which are readings
    [k + 2i] and [k + 2i + 1] when [k] readings were taken before the
    import. *)
Theorem import_regenerates_timestamps self data i nm d :
  NoDup (doc_concepts data).*1 ->
  doc_concepts data !! i = Some (nm, d) ->
  exists c, dict_get (concepts (import_from_json now self data)) nm = Some c /\
    created_at c = now (clock_reads self + 2 * i)%nat /\
    modified_at c = now (S (clock_reads self + 2 * i))%nat.
Proof.
  intros Hnd Hi.
  pose proof (replay_core now (cleared (clock_reads self)) _ i nm d Hnd Hi) as H.
  unfold import_from_json. destruct (dict_get _ nm) as [c|]; [|done].
  exists c. simpl in H. unfold core in H. by simplify_eq.
Qed.
End RoundTrip.

Lemma export_import_roundtrip_witness :
  let o := sample_store wall_clock in
  let o' := import_from_json wall_clock o (export_to_json o) in
  dict_keys (concepts o') = dict_keys (concepts o) /\
  (forall nm c, dict_get (concepts o) nm = Some c ->
     exists c', dict_get (concepts o') nm = Some c' /\
       category c' = category c /\ attributes c' = attributes c /\
       parent c' = parent c) /\
  (forall e, e ∈ DiGraph.edges (graph o') <-> e ∈ parent_edges o) /\
  (forall e, e ∈ parent_edges o' <-> e ∈ parent_edges o).
Proof.
  apply (export_import_roundtrip wall_clock (sample_store wall_clock)
           (sample_store wall_clock)).
  - apply (bool_decide_unpack _). by vm_compute.
  - repeat constructor.
Defined.

(** The graph of a store can hold more than the parent fields call for:
    the seeded ontology keeps the edge from ["Style"] to ["Casual"] after
    ["Casual"] moved under ["Occasion"].  Such an edge is not rebuilt. *)
Example import_rebuilds_from_parents :
  let o := FashionOntology_init wall_clock in
  let o' := import_from_json wall_clock o (export_to_json o) in
  ("Style", "Casual") ∈ DiGraph.edges (graph o) /\
  (("Style", "Casual") ∉ parent_edges o) /\
  (("Style", "Casual") ∉ DiGraph.edges (graph o')) /\
  ("Occasion", "Casual") ∈ DiGraph.edges (graph o').
Proof.
  split_and!; apply (bool_decide_unpack _); by vm_compute.
Qed.

Lemma import_regenerates_timestamps_witness :
  exists c,
    dict_get (concepts (import_from_json wall_clock (scenario wall_clock)
                          (export_to_json (scenario wall_clock)))) "Apparel"
      = Some c /\
    created_at c = wall_clock (6 + 2 * 1)%nat /\
    modified_at c = wall_clock (S (6 + 2 * 1))%nat.
Proof.
  apply (import_regenerates_timestamps wall_clock (scenario wall_clock)
           (export_to_json (scenario wall_clock)) 1 "Apparel"
           (mkDict "Apparel" "main_category" [] (Some "Fashion")
              ["Dresses"] 2 3)).
  - apply (bool_decide_unpack _). by vm_compute.
  - by vm_compute.
Defined.

(** The seeded ontology is stamped with readings 0 to 121; exported and
    imported again, its root carries readings 122 and 123, not the 0 and 1
    the document holds. *)
Lemma timestamps_not_preserved :
  let o := FashionOntology_init wall_clock in
  let data := export_to_json o in
  let o' := import_from_json wall_clock o data in
  (d_created_at <$> dict_get (doc_concepts data) "Fashion" = Some 0 /\
   d_modified_at <$> dict_get (doc_concepts data) "Fashion" = Some 1) /\
  (created_at <$> dict_get (concepts o') "Fashion" = Some 122 /\
   modified_at <$> dict_get (concepts o') "Fashion" = Some 123) /\
  created_at <$> dict_get (concepts o') "Fashion"
    <> d_created_at <$> dict_get (doc_concepts data) "Fashion" /\
  modified_at <$> dict_get (concepts o') "Fashion"
    <> d_modified_at <$> dict_get (doc_concepts data) "Fashion".
Proof. split_and!; by vm_compute. Qed.

(** ** Linking a concept to its parent *)

Section ParentLink.
Variable now : nat -> Z.
Implicit Types (o : FashionOntology) (nm cat p q : string).

(** C6 (amended).  For every call [add_concept(name, category, attributes,
    parent)] whose parent is a non-empty string, the edge (parent, name) is
    in the graph afterwards, and name is put into the children set of the
    parent exactly when the parent is a key of the concept table once name
    itself has been registered: when the parent was already a concept, or
    when it is name itself.  A parent that was already a concept and differs from name
    keeps its fields and gains the one child; when the parent is unknown and
    is not name, it stays unknown, the new concept has no children and every
    other concept is as before.  In all cases the concepts other than name
    and parent are untouched, and the call returns. *)
Theorem add_concept_parent_link o nm cat attrs p :
  p <> "" ->
  let o' := add_concept now o nm cat attrs (Some p) in
  (p, nm) ∈ DiGraph.edges (graph o') /\
  ((exists kp, dict_get (concepts o') p = Some kp /\ nm ∈ children kp) <->
   (p = nm \/ is_Some (dict_get (concepts o) p))) /\
  (forall kp, p <> nm -> dict_get (concepts o) p = Some kp ->
     dict_get (concepts o') p = Some (add_child nm kp)) /\
  (p <> nm -> dict_get (concepts o) p = None ->
     dict_get (concepts o') p = None /\ get_children o' nm = ∅ /\
     forall q, q <> nm -> dict_get (concepts o') q = dict_get (concepts o) q) /\
  (forall q, q <> nm -> q <> p ->
     dict_get (concepts o') q = dict_get (concepts o) q).
Proof.
  intros Hp o'. split_and!.
  - apply add_concept_edges. right. split_and!; [by apply truthy_Some|done..].
  - split.
    + intros (kp & Hkp & Hin).
      destruct (decide (p = nm)) as [|Hne]; [by left|right].
      assert (Hk : is_Some (dict_get (concepts o') p)) by eauto.
      apply add_concept_known in Hk as [|]; done.
    + intros Hk.
      assert (Hk' : is_Some (dict_get (concepts o') p)).
      { apply add_concept_known. destruct Hk; auto. }
      destruct Hk' as [kp Hkp]. exists kp. split; [done|].
      rewrite (add_concept_children _ _ _ _ _ _ _ _ Hkp).
      rewrite bool_decide_eq_true_2 by done. set_solver.
  - intros kp Hne Hkp. unfold o'. rewrite add_concept_get. simpl.
    rewrite bool_decide_eq_true_2 by done. rewrite decide_False by done.
    by rewrite Hkp.
  - intros Hne Hnone.
    assert (Hq : forall q, q <> nm ->
               dict_get (concepts o') q = dict_get (concepts o) q).
    { intros q Hq. unfold o'. rewrite add_concept_get. simpl.
      rewrite decide_False by done. case_bool_decide as Hb; [|done].
      destruct Hb as [[= ->] _]. by rewrite Hnone. }
    split_and!; [by rewrite Hq|..|done].
    unfold get_children, o'. rewrite add_concept_get. simpl.
    rewrite decide_True by done.
    rewrite bool_decide_eq_false_2; [done|]. intros [[= ?] _]. done.
  - intros q Hq Hqp. unfold o'. rewrite add_concept_get. simpl.
    rewrite decide_False by done.
    rewrite bool_decide_eq_false_2; [done|]. intros [[= ?] _]. done.
Qed.

(** An empty parent does not pass [if parent:]: it is stored in the parent
    field, and neither an edge nor a child is added. *)
Lemma add_concept_empty_parent o nm cat attrs :
  let o' := add_concept now o nm cat attrs (Some "") in
  (forall e, e ∈ DiGraph.edges (graph o') <-> e ∈ DiGraph.edges (graph o)) /\
  (forall q, q <> nm -> dict_get (concepts o') q = dict_get (concepts o) q) /\
  parent <$> dict_get (concepts o') nm = Some (Some "").
Proof.
  intros o'. split_and!.
  - intros e. unfold o'. rewrite add_concept_edges. split; [|auto].
    intros [|(Ht & _)]; [done|discriminate Ht].
  - intros q Hq. unfold o'. rewrite add_concept_get. simpl.
    rewrite decide_False by done.
    case_bool_decide as Hb; [|done]. by destruct Hb as [[= <-] Hb].
  - unfold o'. rewrite add_concept_parent. by rewrite decide_True.
Qed.
End ParentLink.

Lemma add_concept_parent_link_witness :
  ("Apparel", "Dresses") ∈ DiGraph.edges (graph (scenario wall_clock)).
Proof.
  apply (add_concept_parent_link wall_clock
           (add_concept wall_clock
              (add_concept wall_clock (cleared 0) "Fashion" "root" None None)
              "Apparel" "main_category" None (Some "Fashion"))
           "Dresses" "sub_category" None "Apparel").
  discriminate.
Defined.

(** With the empty string as parent no edge is added; with the name itself
    as parent the new concept becomes its own child although the parent was
    not a concept when the call was made. *)
Lemma add_concept_parent_link_fails :
  (("", "Tops") ∉ DiGraph.edges (graph
     (add_concept wall_clock (cleared 0) "Tops" "sub_category" None (Some "")))) /\
  dict_get (concepts (cleared 0)) "Tops" = None /\
  "Tops" ∈ get_children
     (add_concept wall_clock (cleared 0) "Tops" "sub_category" None (Some "Tops"))
     "Tops".
Proof.
  split_and!.
  - vm_compute. apply not_elem_of_nil.
  - done.
  - apply (bool_decide_unpack _). by vm_compute.
Qed.

(** ** The moderation queue *)

Lemma elem_of_set_add (x y : Proposal) (s : list Proposal) :
  y ∈ set_add x s <-> y = x \/ y ∈ s.
Proof.
  unfold set_add. case_bool_decide as Hin.
  - split; [auto|]. intros [->|]; done.
  - rewrite elem_of_app, list_elem_of_singleton. tauto.
Qed.


Lemma set_add_NoDup (x : Proposal) (s : list Proposal) :
  NoDup s -> NoDup (set_add x s).
Proof.
  intros Hnd. unfold set_add. case_bool_decide as Hin; [done|].
  apply NoDup_app. split_and!; [done| |apply NoDup_singleton].
  by intros y Hy ->%list_elem_of_singleton.
Qed.

(** C7.  [suggest_new_concept] returns false and changes nothing when the
    name is already a committed concept; otherwise it returns true, leaves
    the store alone and adds the serialized proposal to the pending set,
    which then holds it and what it held before.  On the seeded ontology
    ["Denim"] is refused whatever the other arguments are. *)
Theorem suggest_new_concept_spec (now : nat -> Z) (m : OntologyManager)
    (nm cat : string) (attrs : option pydict) (par : option string) :
  (is_Some (dict_get (concepts (ontology m)) nm) ->
     suggest_new_concept m nm cat attrs par = (false, m)) /\
  (dict_get (concepts (ontology m)) nm = None ->
     (suggest_new_concept m nm cat attrs par).1 = true /\
     ontology (suggest_new_concept m nm cat attrs par).2 = ontology m /\
     forall x, x ∈ pending_concepts (suggest_new_concept m nm cat attrs par).2
       <-> x = mkProposal nm cat (dumps_dict <$> attrs) par
           \/ x ∈ pending_concepts m) /\
  suggest_new_concept (OntologyManager_init now) "Denim" cat attrs par
    = (false, OntologyManager_init now).
Proof.
  assert (Hknown : forall m', is_Some (dict_get (concepts (ontology m')) nm) ->
            suggest_new_concept m' nm cat attrs par = (false, m')).
  { intros m' H%dict_mem_spec. unfold suggest_new_concept. by rewrite H. }
  split_and!.
  - apply Hknown.
  - intros H%dict_mem_false. unfold suggest_new_concept. rewrite H. simpl.
    split_and!; [done..|]. intros x. apply elem_of_set_add.
  - unfold suggest_new_concept.
    replace (dict_mem (concepts (ontology (OntologyManager_init now))) "Denim")
      with true; [done|].
    symmetry. apply dict_mem_spec, dict_get_is_Some.
    apply (bool_decide_unpack _). by vm_compute.
Qed.

Lemma suggest_new_concept_spec_witness :
  suggest_new_concept (OntologyManager_init wall_clock) "Denim" "attribute"
    None (Some "Material") = (false, OntologyManager_init wall_clock) /\
  (suggest_new_concept (OntologyManager_init wall_clock) "Velvet" "attribute"
     None (Some "Material")).1 = true.
Proof.
  split.
  - apply (proj1 (suggest_new_concept_spec wall_clock
                    (OntologyManager_init wall_clock)
                    "Denim" "attribute" None (Some "Material"))).
    apply dict_get_is_Some. apply (bool_decide_unpack _). by vm_compute.
  - apply (proj1 (proj2 (suggest_new_concept_spec wall_clock
                           (OntologyManager_init wall_clock)
                           "Velvet" "attribute" None (Some "Material")))).
    by vm_compute.
Defined.

Section Approval.
Variable now : nat -> Z.
Variable iteration : list Proposal -> list Proposal.
Hypothesis iteration_elements : forall s x, x ∈ iteration s <-> x ∈ s.
Implicit Types (m : OntologyManager) (nm : string) (x y : Proposal).

Lemma approve_loop_cases m nm todo :
  (Forall (fun x => p_name x <> nm) todo /\
   approve_loop now m nm todo = (false, m)) \/
  (exists x, x ∈ todo /\ p_name x = nm /\
     approve_loop now m nm todo = (true, commit now m x)).
Proof.
  induction todo as [|x todo IH]; simpl.
  - left. by split.
  - case_decide as Hx.
    + right. exists x. split_and!; [left|done..].
    + destruct IH as [[Hall Hres]|(y & Hy & Hnm & Hres)].
      * left. split; [by constructor|done].
      * right. exists y. split_and!; [by right|done..].
Qed.

Lemma approve_concept_cases m nm :
  ((forall x, x ∈ pending_concepts m -> p_name x <> nm) /\
   approve_concept now iteration m nm = (false, m)) \/
  (exists x, x ∈ pending_concepts m /\ p_name x = nm /\
     approve_concept now iteration m nm = (true, commit now m x)).
Proof.
  unfold approve_concept.
  destruct (approve_loop_cases m nm (iteration (pending_concepts m)))
    as [[Hall Hres]|(x & Hx & Hnm & Hres)].
  - left. split; [|done]. intros x Hx%iteration_elements.
    rewrite Forall_forall in Hall. by apply Hall.
  - right. exists x. by rewrite <- iteration_elements.
Qed.
End Approval.

Section ApprovalSpec.
Variable now : nat -> Z.
Variable iteration : list Proposal -> list Proposal.
Hypothesis iteration_elements : forall s x, x ∈ iteration s <-> x ∈ s.
Implicit Types (m : OntologyManager) (nm : string) (x y : Proposal).


End ApprovalSpec.



(** The whole run: both proposals are accepted while ["Velvet"] is
    unknown, the first approval commits the attribute, the second replaces
    it with the sub-category, and a third finds nothing. *)
Example velvet_run :
  let m1 := (approve_concept wall_clock (fun s => s) velvet_twice "Velvet") in
  core <$> dict_get (concepts (ontology velvet_twice)) "Velvet"
    = Some ("Velvet", "attribute", [], Some "Material", 122, 123) /\
  m1.1 = true /\
  core <$> dict_get (concepts (ontology m1.2)) "Velvet"
    = Some ("Velvet", "sub_category", [("pile", PyStr "short")],
            Some "Apparel", 124, 125) /\
  pending_concepts m1.2 = [] /\
  (approve_concept wall_clock (fun s => s) m1.2 "Velvet").1 = false.
Proof. by vm_compute. Qed.

(** * Further properties *)

(** ** Stores the operations produce *)

Section Reachable.
Variable now : nat -> Z.
Implicit Types (o : FashionOntology) (nm cat p q : string).

Lemma replay_reachable o entries :
  reachable now o -> reachable now (replay now o entries).
Proof.
  revert o. induction entries as [|x entries IH]; intros o Ho; simpl; [done|].
  apply IH. by constructor.
Qed.

Lemma import_reachable o data : reachable now (import_from_json now o data).
Proof. apply replay_reachable. constructor. Qed.

Lemma foldl_reachable {A} (f : FashionOntology -> A -> FashionOntology)
    (l : list A) o :
  (forall o x, reachable now o -> reachable now (f o x)) ->
  reachable now o -> reachable now (foldl f o l).
Proof.
  intros Hf. revert o. induction l as [|x l IH]; intros o Ho; simpl; auto.
Qed.

Lemma init_reachable : reachable now (FashionOntology_init now).
Proof.
  unfold FashionOntology_init, _initialize_base_structure,
    _add_attribute_categories.
  apply foldl_reachable.
  { intros o ca Ho. apply foldl_reachable; [intros; by constructor|].
    by constructor. }
  do 2 (apply foldl_reachable; [intros; by constructor|]).
  repeat constructor.
Qed.
End Reachable.

(** ** The node table *)

Section Nodes.
Import DiGraph.
Implicit Types (g : DiGraph.t) (n u v : string).

Lemma has_node_spec g n : has_node g n = true <-> n ∈ nodes g.
Proof. unfold has_node. apply bool_decide_eq_true. Qed.

Lemma nodes_add_node g n a :
  nodes (add_node g n a) = if has_node g n then nodes g else nodes g ++ [n].
Proof.
  unfold add_node. destruct (has_node g n); unfold nodes.
  - rewrite <- list_fmap_compose. apply list_fmap_ext. intros i x _. simpl.
    by case_decide.
  - by rewrite fmap_app.
Qed.

Lemma nodes_touch g n :
  nodes (touch g n) = if has_node g n then nodes g else nodes g ++ [n].
Proof.
  unfold touch. destruct (has_node g n); [done|]. unfold nodes.
  by rewrite fmap_app.
Qed.

Lemma nodes_add_edge g u v : nodes (add_edge g u v) = nodes (touch (touch g u) v).
Proof.
  unfold add_edge, nodes. rewrite <- list_fmap_compose. apply list_fmap_ext.
  intros i x _. simpl. by case_decide.
Qed.

Lemma elem_of_nodes_touch g n m : m ∈ nodes (touch g n) <-> m = n \/ m ∈ nodes g.
Proof.
  rewrite nodes_touch. destruct (has_node g n) eqn:Hn.
  - apply has_node_spec in Hn. split; [auto|]. intros [->|]; done.
  - rewrite elem_of_app, list_elem_of_singleton. tauto.
Qed.

Lemma elem_of_nodes_add_node g n a m :
  m ∈ nodes (add_node g n a) <-> m = n \/ m ∈ nodes g.
Proof.
  rewrite nodes_add_node. destruct (has_node g n) eqn:Hn.
  - apply has_node_spec in Hn. split; [auto|]. intros [->|]; done.
  - rewrite elem_of_app, list_elem_of_singleton. tauto.
Qed.

Lemma elem_of_nodes_add_edge g u v m :
  m ∈ nodes (add_edge g u v) <-> m = u \/ m = v \/ m ∈ nodes g.
Proof. rewrite nodes_add_edge, !elem_of_nodes_touch. tauto. Qed.

Lemma NoDup_nodes_touch g n : NoDup (nodes g) -> NoDup (nodes (touch g n)).
Proof.
  intros Hnd. rewrite nodes_touch. destruct (has_node g n) eqn:Hn; [done|].
  apply NoDup_app. split_and!; [done| |apply NoDup_singleton].
  intros x Hx ->%list_elem_of_singleton. apply has_node_spec in Hx. congruence.
Qed.

Lemma NoDup_nodes_add_node g n a : NoDup (nodes g) -> NoDup (nodes (add_node g n a)).
Proof.
  intros Hnd. rewrite nodes_add_node. destruct (has_node g n) eqn:Hn; [done|].
  apply NoDup_app. split_and!; [done| |apply NoDup_singleton].
  intros x Hx ->%list_elem_of_singleton. apply has_node_spec in Hx. congruence.
Qed.

Lemma NoDup_nodes_add_edge g u v : NoDup (nodes g) -> NoDup (nodes (add_edge g u v)).
Proof. intros Hnd. rewrite nodes_add_edge. by do 2 apply NoDup_nodes_touch. Qed.
End Nodes.

Section StoreGraph.
Variable now : nat -> Z.
Implicit Types (o : FashionOntology) (nm cat p q : string).

Lemma add_concept_nodes o nm cat attrs par n :
  n ∈ DiGraph.nodes (graph (add_concept now o nm cat attrs par)) <->
  n = nm \/ n ∈ DiGraph.nodes (graph o) \/ (truthy par = true /\ par = Some n).
Proof.
  unfold add_concept. destruct par as [p|].
  - destruct (truthy (Some p)) eqn:Hp; cbn [graph].
    + rewrite elem_of_nodes_add_edge, elem_of_nodes_add_node.
      split; [intros [->|[->|[->|]]]; auto|].
      intros [->|[|[_ [= ->]]]]; auto.
    + rewrite elem_of_nodes_add_node. split; [intros [|]; auto|].
      intros [|[|[? _]]]; auto. done.
  - cbn [graph]. rewrite elem_of_nodes_add_node. split; [intros [|]; auto|].
    intros [|[|[? _]]]; auto. done.
Qed.

Lemma add_concept_nodes_NoDup o nm cat attrs par :
  NoDup (DiGraph.nodes (graph o)) ->
  NoDup (DiGraph.nodes (graph (add_concept now o nm cat attrs par))).
Proof.
  intros Hnd. unfold add_concept. destruct par as [p|];
    [destruct (truthy (Some p))|]; cbn [graph];
    auto using NoDup_nodes_add_edge, NoDup_nodes_add_node.
Qed.
End StoreGraph.

(** ** Invariants of the store *)

Section StoreInvariants.
Variable now : nat -> Z.
Implicit Types (o : FashionOntology) (nm cat p q : string).

Lemma keys_named_inv o :
  reachable now o ->
  keys_distinct o /\
  forall nm c, dict_get (concepts o) nm = Some c -> name c = nm.
Proof.
  induction 1 as [k|o nm cat attrs par Hr [IHk IHn]].
  - split; [apply keys_distinct_cleared|]. intros nm c [=].
  - split; [by apply add_concept_keys_distinct|].
    intros q c Hc.
    pose proof (add_concept_core now o nm cat attrs par q) as Hcore.
    rewrite Hc in Hcore. simpl in Hcore. case_decide as Hq.
    + unfold core in Hcore. congruence.
    + destruct (dict_get (concepts o) q) as [c0|] eqn:Hc0; [|done].
      simpl in Hcore. unfold core in Hcore.
      specialize (IHn _ _ Hc0). congruence.
Qed.

Lemma graph_inv o :
  reachable now o ->
  NoDup (DiGraph.nodes (graph o)) /\
  (forall nm, is_Some (dict_get (concepts o) nm) ->
     nm ∈ DiGraph.nodes (graph o)) /\
  (forall u v, (u, v) ∈ DiGraph.edges (graph o) ->
     u ∈ DiGraph.nodes (graph o) /\ v ∈ DiGraph.nodes (graph o) /\
     is_Some (dict_get (concepts o) v)).
Proof.
  induction 1 as [k|o nm cat attrs par Hr (IHnd & IHc & IHe)].
  - split_and!; [apply NoDup_nil_2|intros nm [c [=]]|].
    intros u v Huv. by apply elem_of_nil in Huv.
  - split_and!.
    + by apply add_concept_nodes_NoDup.
    + intros q Hq. apply add_concept_known in Hq.
      apply add_concept_nodes. destruct Hq; auto.
    + intros u v Huv. apply add_concept_edges in Huv.
      rewrite !add_concept_nodes, add_concept_known.
      destruct Huv as [Huv|(Ht & Hp & Hv)].
      * destruct (IHe _ _ Huv) as (Hu & Hv & Hk). auto 6.
      * simpl in *. subst. auto 6.
Qed.

Lemma children_sound_inv o P kp C :
  reachable now o ->
  dict_get (concepts o) P = Some kp -> C ∈ children kp ->
  is_Some (dict_get (concepts o) C) /\ (P, C) ∈ DiGraph.edges (graph o).
Proof.
  intros Hr. revert P kp C.
  induction Hr as [k|o nm cat attrs par Hr IH]; intros P kp C HP HC.
  - done.
  - rewrite (add_concept_children _ _ _ _ _ _ _ _ HP) in HC.
    rewrite add_concept_known, add_concept_edges.
    apply elem_of_union in HC as [HC|HC].
    + case_decide as HPn; [set_solver|].
      unfold get_children in HC.
      destruct (dict_get (concepts o) P) as [kp0|] eqn:HP0; [|set_solver].
      destruct (IH _ _ _ HP0 HC). auto.
    + case_bool_decide as Hb; [|set_solver].
      apply elem_of_singleton in HC as ->. destruct Hb as [-> Hne].
      split; [by left|]. right. simpl. split_and!; [|done..].
      by apply truthy_Some.
Qed.

Lemma parent_edges_inv o nm c p :
  reachable now o ->
  dict_get (concepts o) nm = Some c -> parent c = Some p -> p <> "" ->
  (p, nm) ∈ DiGraph.edges (graph o).
Proof.
  intros Hr. revert nm c p.
  induction Hr as [k|o nm0 cat attrs par Hr IH]; intros nm c p Hc Hp Hne.
  - done.
  - assert (Hpar : parent <$> dict_get (concepts (add_concept now o nm0 cat attrs par)) nm
                   = Some (Some p)) by (by rewrite Hc; simpl; rewrite Hp).
    rewrite add_concept_parent in Hpar. apply add_concept_edges.
    case_decide as Hn.
    + injection Hpar as ->. subst. right. simpl.
      split_and!; [by apply truthy_Some|done..].
    + left. apply parent_lookup in Hpar as (c0 & Hc0 & Hp0). eauto.
Qed.

Lemma timestamps_inv o nm c :
  reachable now o ->
  dict_get (concepts o) nm = Some c ->
  (exists k, (S k < clock_reads o)%nat /\
     created_at c = now k /\ modified_at c = now (S k)) /\
  (clock_monotone now -> created_at c <= modified_at c).
Proof.
  intros Hr Hc.
  assert (Hk : exists k, (S k < clock_reads o)%nat /\
     created_at c = now k /\ modified_at c = now (S k)).
  { revert nm c Hc. induction Hr as [k|o nm0 cat attrs par Hr IH]; intros nm c Hc.
    - done.
    - pose proof (add_concept_core now o nm0 cat attrs par nm) as Hcore.
      rewrite Hc, add_concept_clock in *. simpl in Hcore. case_decide as Hn.
      + exists (clock_reads o). unfold core in Hcore.
        split_and!; [lia|congruence..].
      + destruct (dict_get (concepts o) nm) as [c0|] eqn:Hc0; [|done].
        destruct (IH _ _ Hc0) as (k & Hlt & Hcr & Hmo).
        simpl in Hcore. unfold core in Hcore. exists k.
        split_and!; [lia|congruence..]. }
  split; [done|]. intros Hmono. destruct Hk as (k & _ & -> & ->).
  apply Hmono. lia.
Qed.

Lemma reachable_produced o : reachable now o -> produced now o.
Proof. induction 1; by constructor. Qed.

Lemma produced_stamps o nm c :
  produced now o ->
  dict_get (concepts o) nm = Some c ->
  exists k j, (k < j < clock_reads o)%nat /\
    created_at c = now k /\ modified_at c = now j.
Proof.
  intros Hp. revert nm c.
  induction Hp as [k|o nm0 cat attrs par Hp IH|o nm0 attrs o' Hp IH Hu];
    intros nm c Hc.
  - done.
  - pose proof (add_concept_core now o nm0 cat attrs par nm) as Hcore.
    rewrite Hc, add_concept_clock in *. simpl in Hcore. case_decide as Hn.
    + exists (clock_reads o), (S (clock_reads o)). unfold core in Hcore.
      split_and!; [lia..|congruence|congruence].
    + destruct (dict_get (concepts o) nm) as [c0|] eqn:Hc0; [|done].
      destruct (IH _ _ Hc0) as (k & j & Hlt & Hcr & Hmo).
      simpl in Hcore. unfold core in Hcore. exists k, j.
      split_and!; [lia..|congruence|congruence].
  - destruct Hu as (Hclock & _ & (c0 & Hc0 & Hc0') & Hrest).
    rewrite Hclock. destruct (decide (nm = nm0)) as [->|Hn].
    + rewrite Hc0' in Hc. injection Hc as <-.
      destruct (IH _ _ Hc0) as (k & j & Hlt & Hcr & _).
      exists k, (clock_reads o). simpl. split_and!; [lia..|done|done].
    + specialize (Hrest nm Hn). rewrite Hc in Hrest.
      destruct (dict_get (concepts o) nm) as [c1|] eqn:Hc1; [|done].
      destruct (IH _ _ Hc1) as (k & j & Hlt & Hcr & Hmo).
      simpl in Hrest. unfold unshared in Hrest. exists k, j.
      split_and!; [lia..|congruence|congruence].
Qed.
(** X1.  In every store the operations produce, the keys of the concept
    table are pairwise distinct and every concept is filed under its own
    name. *)
Theorem reachable_keys_named o :
  reachable now o ->
  keys_distinct o /\
  forall nm c, dict_get (concepts o) nm = Some c -> name c = nm.
Proof. apply keys_named_inv. Qed.

(** X2.  In every store the operations produce, the graph has no node
    twice, every concept is a node, both ends of every edge are nodes and
    every edge ends in a concept. *)
Theorem reachable_graph o :
  reachable now o ->
  NoDup (DiGraph.nodes (graph o)) /\
  (forall nm, is_Some (dict_get (concepts o) nm) ->
     nm ∈ DiGraph.nodes (graph o)) /\
  (forall u v, (u, v) ∈ DiGraph.edges (graph o) ->
     u ∈ DiGraph.nodes (graph o) /\ v ∈ DiGraph.nodes (graph o) /\
     is_Some (dict_get (concepts o) v)).
Proof. apply graph_inv. Qed.

(** X3.  In every store the operations produce, whatever a children set
    holds is a concept, and the graph has the edge from the owner of the set
    to it. *)
Theorem reachable_children_sound o P kp C :
  reachable now o ->
  dict_get (concepts o) P = Some kp -> C ∈ children kp ->
  is_Some (dict_get (concepts o) C) /\ (P, C) ∈ DiGraph.edges (graph o).
Proof. apply children_sound_inv. Qed.

(** X4.  In every store the operations produce, each concept whose parent
    is a non-empty name has its edge in the graph, from the parent to the
    concept. *)
Theorem reachable_parent_edges o nm c p :
  reachable now o ->
  dict_get (concepts o) nm = Some c -> parent c = Some p -> p <> "" ->
  (p, nm) ∈ DiGraph.edges (graph o).
Proof. apply parent_edges_inv. Qed.

(** X5.  In every store produced by [add_concept] calls and updates of
    stored concepts, each concept carries two readings of the clock that
    the store has already taken, [created_at] the earlier of the two; as
    long as no concept has been updated, the two readings are consecutive;
    with a clock that never goes back, no concept is modified before it is
    created. *)
Theorem produced_timestamps o nm c :
  produced now o ->
  dict_get (concepts o) nm = Some c ->
  (exists k j, (k < j < clock_reads o)%nat /\
     created_at c = now k /\ modified_at c = now j) /\
  (reachable now o ->
     exists k, (S k < clock_reads o)%nat /\
       created_at c = now k /\ modified_at c = now (S k)) /\
  (clock_monotone now -> created_at c <= modified_at c).
Proof.
  intros Hp Hc.
  destruct (produced_stamps o nm c Hp Hc) as (k & j & Hlt & Hcr & Hmo).
  split_and!.
  - by exists k, j.
  - intros Hr. by apply (timestamps_inv o nm c Hr Hc).
  - intros Hmono. rewrite Hcr, Hmo. apply Hmono. lia.
Qed.
End StoreInvariants.

Lemma reachable_keys_named_witness :
  keys_distinct (scenario wall_clock) /\
  forall nm c, dict_get (concepts (scenario wall_clock)) nm = Some c ->
    name c = nm.
Proof.
  apply (reachable_keys_named wall_clock (scenario wall_clock)).
  unfold scenario. repeat constructor.
Defined.

Lemma reachable_graph_witness :
  NoDup (DiGraph.nodes (graph (sample_store wall_clock))) /\
  (forall nm, is_Some (dict_get (concepts (sample_store wall_clock)) nm) ->
     nm ∈ DiGraph.nodes (graph (sample_store wall_clock))) /\
  (forall u v, (u, v) ∈ DiGraph.edges (graph (sample_store wall_clock)) ->
     u ∈ DiGraph.nodes (graph (sample_store wall_clock)) /\
     v ∈ DiGraph.nodes (graph (sample_store wall_clock)) /\
     is_Some (dict_get (concepts (sample_store wall_clock)) v)).
Proof.
  apply (reachable_graph wall_clock (sample_store wall_clock)).
  unfold sample_store, scenario. repeat constructor.
Defined.

Lemma reachable_children_sound_witness :
  is_Some (dict_get (concepts (scenario wall_clock)) "Dresses") /\
  ("Apparel", "Dresses") ∈ DiGraph.edges (graph (scenario wall_clock)).
Proof.
  apply (reachable_children_sound wall_clock (scenario wall_clock) "Apparel"
           (add_child "Dresses"
              (FashionConcept_init "Apparel" "main_category" None
                 (Some "Fashion") 2 3))
           "Dresses").
  - unfold scenario. repeat constructor.
  - by vm_compute.
  - apply (bool_decide_unpack _). by vm_compute.
Defined.

Lemma reachable_parent_edges_witness :
  ("Outerwear", "Trench") ∈ DiGraph.edges (graph (sample_store wall_clock)).
Proof.
  apply (reachable_parent_edges wall_clock (sample_store wall_clock) "Trench"
           (FashionConcept_init "Trench" "sub_category"
              (Some sample_attributes) (Some "Outerwear") 6 7)
           "Outerwear").
  - unfold sample_store, scenario. repeat constructor.
  - by vm_compute.
  - reflexivity.
  - discriminate.
Defined.

Lemma produced_timestamps_witness :
  (exists k j, (k < j < clock_reads (scenario_updated wall_clock))%nat /\
     created_at (update (add_child "Dresses"
                           (FashionConcept_init "Apparel" "main_category" None
                              (Some "Fashion") 2 3))
                   [("season", PyStr "summer")] 6) = wall_clock k /\
     modified_at (update (add_child "Dresses"
                            (FashionConcept_init "Apparel" "main_category" None
                               (Some "Fashion") 2 3))
                    [("season", PyStr "summer")] 6) = wall_clock j) /\
  (exists k, (S k < clock_reads (scenario wall_clock))%nat /\
     created_at (FashionConcept_init "Dresses" "sub_category" None
                   (Some "Apparel") 4 5) = wall_clock k /\
     modified_at (FashionConcept_init "Dresses" "sub_category" None
                    (Some "Apparel") 4 5) = wall_clock (S k)) /\
  (clock_monotone wall_clock ->
   created_at (update (add_child "Dresses"
                         (FashionConcept_init "Apparel" "main_category" None
                            (Some "Fashion") 2 3))
                 [("season", PyStr "summer")] 6)
   <= modified_at (update (add_child "Dresses"
                             (FashionConcept_init "Apparel" "main_category" None
                                (Some "Fashion") 2 3))
                     [("season", PyStr "summer")] 6)).
Proof.
  assert (Hr : reachable wall_clock (scenario wall_clock))
    by (unfold scenario; repeat constructor).
  assert (Hs : produced wall_clock (scenario wall_clock))
    by (unfold scenario; repeat apply prod_add; apply prod_cleared).
  assert (Hu : produced wall_clock (scenario_updated wall_clock)).
  { apply (prod_update wall_clock (scenario wall_clock) "Apparel"
             [("season", PyStr "summer")]); [exact Hs|].
    split_and!.
    - reflexivity.
    - apply dict_keys_alter.
    - eexists. split; vm_compute; reflexivity.
    - intros q Hq. unfold scenario_updated. cbn [concepts].
      rewrite dict_get_alter. by rewrite decide_False. }
  split_and!.
  - apply (proj1 (produced_timestamps wall_clock (scenario_updated wall_clock)
                    "Apparel" _ Hu ltac:(vm_compute; reflexivity))).
  - apply (proj1 (proj2 (produced_timestamps wall_clock (scenario wall_clock)
                           "Dresses" _ Hs ltac:(vm_compute; reflexivity))) Hr).
  - apply (proj2 (proj2 (produced_timestamps wall_clock
                           (scenario_updated wall_clock)
                           "Apparel" _ Hu ltac:(vm_compute; reflexivity)))).
Defined.


(** ** What [add_concept] keeps *)

Section AddConceptKeeps.
Variable now : nat -> Z.
Implicit Types (o : FashionOntology) (nm cat p q : string).

(** X6.  [add_concept] removes nothing: every concept, node and edge of
    the store is still there afterwards, and a concept other than the one
    added keeps its name, category, attributes, parent and timestamps and
    loses no child. *)
Theorem add_concept_grows o nm cat attrs par :
  let o' := add_concept now o nm cat attrs par in
  (forall q, is_Some (dict_get (concepts o) q) ->
     is_Some (dict_get (concepts o') q)) /\
  (forall n, n ∈ DiGraph.nodes (graph o) -> n ∈ DiGraph.nodes (graph o')) /\
  (forall e, e ∈ DiGraph.edges (graph o) -> e ∈ DiGraph.edges (graph o')) /\
  (forall q c, q <> nm -> dict_get (concepts o) q = Some c ->
     exists c', dict_get (concepts o') q = Some c' /\ core c' = core c /\
       children c ⊆ children c').
Proof.
  intros o'. split_and!.
  - intros q Hq. apply add_concept_known. auto.
  - intros n Hn. apply add_concept_nodes. auto.
  - intros e He. apply add_concept_edges. auto.
  - intros q c Hq Hc.
    assert (Hk : is_Some (dict_get (concepts o') q))
      by (apply add_concept_known; eauto).
    destruct Hk as [c' Hc']. exists c'. split_and!; [done| |].
    + pose proof (add_concept_core now o nm cat attrs par q) as Hcore.
      fold o' in Hcore. rewrite Hc', Hc, decide_False in Hcore by done.
      apply (inj Some). exact Hcore.
    + rewrite (add_concept_children _ _ _ _ _ _ _ _ Hc').
      rewrite decide_False by done. unfold get_children. rewrite Hc.
      set_solver.
Qed.

(** X7.  The concept table keeps its order: adding under a name that is
    already a key leaves the list of keys as it is, and a new name goes to
    the end. *)
Theorem add_concept_dict_order o nm cat attrs par :
  (is_Some (dict_get (concepts o) nm) ->
     dict_keys (concepts (add_concept now o nm cat attrs par))
       = dict_keys (concepts o)) /\
  (dict_get (concepts o) nm = None ->
     dict_keys (concepts (add_concept now o nm cat attrs par))
       = dict_keys (concepts o) ++ [nm]).
Proof.
  rewrite add_concept_keys. split.
  - intros H%dict_mem_spec. by rewrite H.
  - intros H%dict_mem_false. by rewrite H.
Qed.
End AddConceptKeeps.

Lemma add_concept_dict_order_witness :
  dict_keys (concepts (add_concept wall_clock (scenario wall_clock)
                         "Apparel" "renamed" None None))
    = ["Fashion"; "Apparel"; "Dresses"] /\
  dict_keys (concepts (add_concept wall_clock (scenario wall_clock)
                         "Tops" "sub_category" None (Some "Apparel")))
    = ["Fashion"; "Apparel"; "Dresses"] ++ ["Tops"].
Proof.
  split.
  - apply (proj1 (add_concept_dict_order wall_clock (scenario wall_clock)
                    "Apparel" "renamed" None None)).
    by eexists; vm_compute.
  - apply (proj2 (add_concept_dict_order wall_clock (scenario wall_clock)
                    "Tops" "sub_category" None (Some "Apparel"))).
    by vm_compute.
Defined.

(** ** Ancestry in general *)

Section AncestrySpec.
Implicit Types (o : FashionOntology) (cs : list (string * FashionConcept)).

Lemma ancestry_walk_climbs fuel cs current path0 path' :
  ancestry_walk fuel cs current path0 = Some path' ->
  exists path, climbs cs current path /\ (length path < fuel)%nat /\
    path' = path0 ++ path.
Proof.
  revert current path0. induction fuel as [|fuel IH]; intros current path0;
    simpl; [done|].
  destruct (dict_get cs current) as [c|] eqn:Hc.
  - destruct (parent c) as [p|] eqn:Hp.
    + destruct (truthy (Some p)) eqn:Ht.
      * intros (path & Hcl & Hlen & ->)%IH. exists (current :: path).
        split_and!; [|simpl; lia|by rewrite <- app_assoc].
        econstructor; [done..| |done]. by apply truthy_Some.
      * intros [= <-]. exists []. split_and!; [|simpl; lia|by rewrite app_nil_r].
        constructor. intros c' Hc'. assert (c' = c) as -> by congruence.
        by rewrite Hp.
    + intros [= <-]. exists []. split_and!; [|simpl; lia|by rewrite app_nil_r].
      constructor. intros c' Hc'. assert (c' = c) as -> by congruence.
      by rewrite Hp.
  - intros [= <-]. exists []. split_and!; [|simpl; lia|by rewrite app_nil_r].
    constructor. intros c' Hc'. congruence.
Qed.

Lemma climbs_ancestry_walk cs current path fuel path0 :
  climbs cs current path -> (length path < fuel)%nat ->
  ancestry_walk fuel cs current path0 = Some (path0 ++ path).
Proof.
  intros Hcl. revert fuel path0.
  induction Hcl as [current Hstop|current c p path Hc Hp Hne Hcl IH];
    intros fuel path0 Hlen.
  - destruct fuel as [|fuel]; [simpl in Hlen; lia|]. simpl.
    rewrite app_nil_r.
    destruct (dict_get cs current) as [c|] eqn:Hc; [|done].
    specialize (Hstop c eq_refl). destruct (parent c); [|done].
    by rewrite Hstop.
  - destruct fuel as [|fuel]; [simpl in Hlen; lia|]. simpl in *.
    rewrite Hc, Hp. apply truthy_Some in Hne. rewrite Hne.
    rewrite IH by lia. by rewrite <- app_assoc.
Qed.

Lemma climbs_functional cs current path1 path2 :
  climbs cs current path1 -> climbs cs current path2 -> path1 = path2.
Proof.
  intros H1. revert path2.
  induction H1 as [current Hstop|current c p path Hc Hp Hne Hcl IH];
    intros path2 H2.
  - inversion H2 as [|? c p path Hc Hp Hne Hcl]; subst; [done|].
    specialize (Hstop c Hc). rewrite Hp in Hstop.
    apply truthy_Some in Hne. congruence.
  - inversion H2 as [? Hstop|? c' p' path' Hc' Hp' Hne' Hcl']; subst.
    + specialize (Hstop c Hc). rewrite Hp in Hstop.
      apply truthy_Some in Hne. congruence.
    + f_equal. apply IH. congruence.
Qed.

(** X8.  [get_ancestry] returns exactly when the parent links lead from the
    name to a name that is no concept or has no parent; what it returns is
    the root label followed by the names gone through, uppermost first.
    The loop runs once per name gone through and once more to stop. *)
Theorem get_ancestry_spec o nm fuel l :
  get_ancestry fuel o nm = Some l <->
  exists path, climbs (concepts o) nm path /\ (length path < fuel)%nat /\
    l = "Fashion" :: reverse path.
Proof.
  unfold get_ancestry. split.
  - destruct (ancestry_walk fuel (concepts o) nm []) as [path'|] eqn:Hw;
      simpl; [|done].
    intros [= <-]. apply ancestry_walk_climbs in Hw as (path & Hcl & Hlen & ->).
    exists path. split_and!; [done..|]. by rewrite reverse_snoc.
  - intros (path & Hcl & Hlen & ->).
    rewrite (climbs_ancestry_walk _ _ _ _ [] Hcl Hlen). simpl.
    by rewrite reverse_snoc.
Qed.

(** X9.  When the parent links never leave a set of names, as on a cycle
    of parents, [get_ancestry] does not return for any name of the set:
    no number of iterations ends the loop. *)
Theorem get_ancestry_cycle o (S : string -> Prop) nm :
  parent_closed (concepts o) S -> S nm ->
  forall fuel, get_ancestry fuel o nm = None.
Proof.
  intros Hclosed Hnm fuel. unfold get_ancestry.
  assert (Hw : forall path, ancestry_walk fuel (concepts o) nm path = None).
  { revert nm Hnm. induction fuel as [|fuel IH]; intros nm Hnm path; [done|].
    simpl. destruct (Hclosed _ Hnm) as (c & p & Hc & Hp & Hne & HSp).
    rewrite Hc, Hp. apply truthy_Some in Hne. rewrite Hne. by apply IH. }
  by rewrite Hw.
Qed.
End AncestrySpec.

Lemma get_ancestry_spec_witness :
  get_ancestry 3 (scenario wall_clock) "Dresses"
    = Some ["Fashion"; "Apparel"; "Dresses"].
Proof.
  apply (proj2 (get_ancestry_spec (scenario wall_clock) "Dresses" 3
                  ["Fashion"; "Apparel"; "Dresses"])).
  exists ["Dresses"; "Apparel"]. split_and!; [|simpl; lia|reflexivity].
  eapply climbs_step; [by vm_compute|reflexivity|discriminate|].
  eapply climbs_step; [by vm_compute|reflexivity|discriminate|].
  apply climbs_stop. intros c Hc. vm_compute in Hc. by simplify_eq.
Defined.

Lemma get_ancestry_cycle_witness :
  get_ancestry 1000
    (add_concept wall_clock
       (add_concept wall_clock (cleared 0) "Tops" "sub_category" None
          (Some "Shirts"))
       "Shirts" "sub_category" None (Some "Tops"))
    "Tops" = None.
Proof.
  apply (get_ancestry_cycle
           (add_concept wall_clock
              (add_concept wall_clock (cleared 0) "Tops" "sub_category" None
                 (Some "Shirts"))
              "Shirts" "sub_category" None (Some "Tops"))
           (fun x => x = "Tops" \/ x = "Shirts") "Tops").
  - intros x [-> | ->].
    + eexists _, "Shirts". split_and!; [by vm_compute|reflexivity|discriminate|auto].
    + eexists _, "Tops". split_and!; [by vm_compute|reflexivity|discriminate|auto].
  - by left.
Defined.

Section AncestryTermination.
Variable now : nat -> Z.
Implicit Types (o : FashionOntology) (nm cat p q : string).

Lemma climbs_add_concept o nm0 cat attrs par x path :
  parents_known o -> dict_get (concepts o) nm0 = None ->
  climbs (concepts o) x path -> x <> nm0 ->
  climbs (concepts (add_concept now o nm0 cat attrs par)) x path.
Proof.
  intros Hpk Hfresh Hcl. induction Hcl as [x Hstop|x c p path Hc Hp Hne Hcl IH];
    intros Hx.
  - constructor. intros c' Hc'.
    pose proof (add_concept_parent now o nm0 cat attrs par x) as Hpar.
    rewrite Hc', decide_False in Hpar by done.
    destruct (dict_get (concepts o) x) as [c|] eqn:Hc; [|done].
    simpl in Hpar. injection Hpar as ->. by apply Hstop.
  - pose proof (add_concept_parent now o nm0 cat attrs par x) as Hpar.
    rewrite Hc, decide_False in Hpar by done. simpl in Hpar.
    destruct (dict_get (concepts (add_concept now o nm0 cat attrs par)) x)
      as [c'|] eqn:Hc'; [|done].
    simpl in Hpar. injection Hpar as Hpar.
    econstructor; [done|by rewrite Hpar|done|]. apply IH.
    destruct (Hpk _ _ _ Hc Hp) as (kp & Hkp & _). congruence.
Qed.

Lemma length_add_concept_new o nm cat attrs par :
  dict_get (concepts o) nm = None ->
  length (concepts (add_concept now o nm cat attrs par))
    = S (length (concepts o)).
Proof.
  intros H%dict_mem_false.
  pose proof (add_concept_keys now o nm cat attrs par) as Hk.
  rewrite H in Hk. apply (f_equal length) in Hk. unfold dict_keys in Hk.
  rewrite length_app, !length_fmap in Hk. simpl in Hk. lia.
Qed.

Lemma well_built_climbs o :
  well_built now o ->
  store_invariant o /\
  forall nm, exists path,
    climbs (concepts o) nm path /\ (length path <= length (concepts o))%nat.
Proof.
  induction 1 as [k|o nm0 cat attrs Hwb [IHi IHc] Hfresh
                 |o nm0 cat attrs p Hwb [IHi IHc] Hfresh Hp Hknown].
  - split; [apply store_invariant_cleared|]. intros nm. exists [].
    split; [|simpl; lia]. constructor. intros c [=].
  - split; [apply store_invariant_add; [done..|]; intros p [=]|].
    intros nm. rewrite length_add_concept_new by done.
    destruct (decide (nm = nm0)) as [->|Hnm].
    + exists []. split; [|simpl; lia]. constructor. intros c Hc.
      pose proof (add_concept_parent now o nm0 cat attrs None nm0) as Hpar.
      rewrite Hc, decide_True in Hpar by done. simpl in Hpar.
      injection Hpar as ->. done.
    + destruct (IHc nm) as (path & Hcl & Hlen). exists path.
      split; [|lia]. apply climbs_add_concept; [apply IHi|done..].
  - split; [apply store_invariant_add; [done..|]; by intros p' [= <-]|].
    intros nm. rewrite length_add_concept_new by done.
    assert (Hpn : p <> nm0) by (destruct Hknown; congruence).
    destruct (decide (nm = nm0)) as [->|Hnm].
    + destruct (IHc p) as (path & Hcl & Hlen). exists (nm0 :: path).
      split; [|simpl; lia].
      pose proof (add_concept_parent now o nm0 cat attrs (Some p) nm0) as Hpar.
      rewrite decide_True in Hpar by done.
      destruct (dict_get (concepts (add_concept now o nm0 cat attrs (Some p))) nm0)
        as [c|] eqn:Hc; [|done].
      simpl in Hpar. injection Hpar as Hpar.
      econstructor; [done..|]. apply climbs_add_concept; [apply IHi|done..].
    + destruct (IHc nm) as (path & Hcl & Hlen). exists path.
      split; [|lia]. apply climbs_add_concept; [apply IHi|done..].
Qed.

(** X10.  In a store grown from the cleared one by adding concepts under
    new names, each without a parent or under a concept already there,
    [get_ancestry] returns for every name, known or not: the loop ends
    within as many iterations as there are concepts, plus one, and the
    result starts with the root label. *)
Theorem get_ancestry_well_built o nm :
  well_built now o ->
  exists path,
    get_ancestry (S (length (concepts o))) o nm = Some ("Fashion" :: path) /\
    (length path <= length (concepts o))%nat.
Proof.
  intros Hwb. destruct (well_built_climbs o Hwb) as [_ Hc].
  destruct (Hc nm) as (path & Hcl & Hlen). exists (reverse path).
  split; [|by rewrite length_reverse].
  unfold get_ancestry.
  rewrite (climbs_ancestry_walk _ _ _ _ [] Hcl) by lia. simpl.
  by rewrite reverse_snoc.
Qed.
End AncestryTermination.

Lemma get_ancestry_well_built_witness :
  exists path,
    get_ancestry (S (length (concepts (scenario wall_clock))))
      (scenario wall_clock) "Dresses" = Some ("Fashion" :: path) /\
    (length path <= length (concepts (scenario wall_clock)))%nat.
Proof.
  apply (get_ancestry_well_built wall_clock (scenario wall_clock) "Dresses").
  unfold scenario.
  apply wb_child;
    [apply wb_child; [apply wb_root; [apply wb_cleared|]|..]|..];
    first [reflexivity | discriminate | by eexists; vm_compute].
Defined.

(** ** Related concepts in general *)

Section Related.
Import DiGraph.
Implicit Types (g : DiGraph.t) (s t nm x : string) (o : FashionOntology).

Lemma find_related_unfold o nm max_distance :
  find_related_concepts o nm max_distance =
    if negb (has_node (graph o) nm) then []
    else (sorted_by_distance (related_pairs (graph o) nm max_distance)).*1.
Proof. done. Qed.

Lemma elem_of_related_pairs g nm max_distance x d :
  (x, d) ∈ related_pairs g nm max_distance <->
  x ∈ nodes g /\ x <> nm /\ shortest_path_length g nm x = Some d /\
  Z.of_nat d <= max_distance.
Proof.
  unfold related_pairs. rewrite list_elem_of_bind. split.
  - intros (y & Hin & Hy). case_decide as Hne; [by apply elem_of_nil in Hin|].
    destruct (shortest_path_length g nm y) as [d'|] eqn:Hd;
      [|by apply elem_of_nil in Hin].
    case_decide as Hle; [|by apply elem_of_nil in Hin].
    apply list_elem_of_singleton in Hin as [= -> ->]. done.
  - intros (Hx & Hne & Hd & Hle). exists x. split; [|done].
    rewrite decide_False, Hd, decide_True by done. left.
Qed.

Lemma first_level_complete g s t d0 fuel k :
  t ∈ level g s k -> (d0 <= k < d0 + fuel)%nat ->
  exists d, first_level g s t d0 fuel = Some d /\ (d <= k)%nat.
Proof.
  intros Hin Hk. destruct (first_level g s t d0 fuel) as [d|] eqn:Hf.
  - exists d. split; [done|].
    destruct (first_level_Some _ _ _ _ _ _ Hf) as (Hd & _ & Hmin).
    destruct (decide (d <= k)%nat); [done|]. destruct (Hmin k); [lia|done].
  - by destruct (first_level_None _ _ _ _ _ Hf k Hk).
Qed.

(** The distance is defined and at most [k] exactly when some walk of at
    most [k] edges exists. *)
Lemma shortest_path_length_walk g s t (k : nat) :
  t ∈ nodes g ->
  (exists d, shortest_path_length g s t = Some d /\ (d <= k)%nat) <->
  (exists j, (j <= k)%nat /\ walk g s t j).
Proof.
  intros Ht. split.
  - intros (d & Hd & Hle). exists d. split; [done|].
    by apply shortest_path_length_Some.
  - intros (j & Hle & Hw).
    destruct (walk_short _ _ _ _ Ht Hw) as (j' & Hj' & Hw').
    assert (Hj : exists i, (i <= k)%nat /\ (i < length g)%nat /\ walk g s t i).
    { destruct (decide (j < length g)%nat); [exists j; auto|].
      exists j'. split_and!; [lia|done..]. }
    destruct Hj as (i & Hik & Hig & Hwi). apply level_walk in Hwi.
    destruct (first_level_complete g s t 0 (length g) i Hwi) as (d & Hd & Hdi);
      [lia|].
    exists d. split; [done|lia].
Qed.

Lemma shortest_path_length_zero g s t :
  shortest_path_length g s t = Some O -> t = s.
Proof.
  intros [Hw _]%shortest_path_length_Some. inversion Hw; by subst.
Qed.

Lemma elem_of_find_related o nm max_distance x :
  x ∈ find_related_concepts o nm max_distance <->
  nm ∈ nodes (graph o) /\
  exists d, (x, d) ∈ related_pairs (graph o) nm max_distance.
Proof.
  rewrite find_related_unfold. destruct (has_node (graph o) nm) eqn:Hn; simpl.
  - apply has_node_spec in Hn. rewrite list_elem_of_fmap. split.
    + intros ([y d] & -> & Hin). rewrite sorted_by_distance_perm in Hin. eauto.
    + intros (_ & d & Hin). exists (x, d). split; [done|].
      by rewrite sorted_by_distance_perm.
  - split; [intros H; by apply elem_of_nil in H|].
    intros [Hnm _]. apply has_node_spec in Hnm. congruence.
Qed.

(** X11.  [find_related_concepts(name, max_distance)] returns exactly the
    other nodes of the graph that some walk of at most [max_distance] edges
    reaches from [name], following the edges from parent to child; for a
    name that is no node it returns nothing. *)
Theorem find_related_spec o nm max_distance x :
  x ∈ find_related_concepts o nm max_distance <->
  nm ∈ nodes (graph o) /\ x ∈ nodes (graph o) /\ x <> nm /\
  exists k, Z.of_nat k <= max_distance /\ walk (graph o) nm x k.
Proof.
  rewrite elem_of_find_related. split.
  - intros (Hnm & d & (Hx & Hne & Hd & Hle)%elem_of_related_pairs).
    split_and!; [done..|]. exists d. split; [done|].
    by apply shortest_path_length_Some.
  - intros (Hnm & Hx & Hne & k & Hk & Hw). split; [done|].
    destruct (proj2 (shortest_path_length_walk (graph o) nm x k Hx))
      as (d & Hd & Hdk); [eauto|].
    exists d. apply elem_of_related_pairs. split_and!; [done..|lia].
Qed.

(** X12.  With a [max_distance] of zero or less nothing is returned: the
    name itself is skipped and every other node is at least one edge away. *)
Theorem find_related_nonpositive o nm max_distance :
  max_distance <= 0 -> find_related_concepts o nm max_distance = [].
Proof.
  intros Hmax. apply elem_of_nil_inv. intros x.
  rewrite elem_of_find_related.
  intros (_ & d & (_ & Hne & Hd & Hle)%elem_of_related_pairs).
  assert (d = O) as -> by lia.
  by apply shortest_path_length_zero in Hd.
Qed.

Lemma insert_by_distance_sorted (x : string * nat) l :
  StronglySorted (fun p q : string * nat => (p.2 <= q.2)%nat) l ->
  StronglySorted (fun p q : string * nat => (p.2 <= q.2)%nat)
    (insert_by_distance x l).
Proof.
  induction 1 as [|y l Hl IH Hy]; simpl.
  - repeat constructor.
  - case_decide as Hxy.
    + constructor; [by constructor|]. constructor; [done|].
      eapply Forall_impl; [exact Hy|]. simpl. intros; lia.
    + constructor; [done|]. rewrite insert_by_distance_perm.
      constructor; [lia|done].
Qed.

Lemma sorted_by_distance_sorted l :
  StronglySorted (fun p q : string * nat => (p.2 <= q.2)%nat)
    (sorted_by_distance l).
Proof.
  induction l as [|x l IH]; simpl; [constructor|].
  by apply insert_by_distance_sorted.
Qed.

Lemma StronglySorted_lookup {A} (R : A -> A -> Prop) (l : list A) i j a b :
  StronglySorted R l -> (i < j)%nat ->
  l !! i = Some a -> l !! j = Some b -> R a b.
Proof.
  intros Hs. revert i j. induction Hs as [|x l Hl IH Hx]; intros i j Hij Hi Hj.
  - done.
  - destruct j as [|j]; [lia|]. simpl in Hj. destruct i as [|i].
    + simpl in Hi. injection Hi as ->. rewrite Forall_forall in Hx.
      apply Hx. by eapply list_elem_of_lookup_2.
    + simpl in Hi. apply (IH i j); [lia|done..].
Qed.

(** X13.  The result is ordered by distance: a name never comes before one
    that is nearer. *)
Theorem find_related_sorted o nm max_distance i j x y dx dy :
  (i < j)%nat ->
  find_related_concepts o nm max_distance !! i = Some x ->
  find_related_concepts o nm max_distance !! j = Some y ->
  shortest_path_length (graph o) nm x = Some dx ->
  shortest_path_length (graph o) nm y = Some dy ->
  (dx <= dy)%nat.
Proof.
  rewrite find_related_unfold. destruct (negb _); [done|].
  rewrite !list_lookup_fmap. intros Hij Hi Hj Hdx Hdy.
  destruct (sorted_by_distance _ !! i) as [[x' dx']|] eqn:Hi'; [|done].
  destruct (sorted_by_distance _ !! j) as [[y' dy']|] eqn:Hj'; [|done].
  simpl in *. simplify_eq.
  assert (Hx : (x, dx') ∈ related_pairs (graph o) nm max_distance).
  { rewrite <- sorted_by_distance_perm. by eapply list_elem_of_lookup_2. }
  assert (Hy : (y, dy') ∈ related_pairs (graph o) nm max_distance).
  { rewrite <- sorted_by_distance_perm. by eapply list_elem_of_lookup_2. }
  apply elem_of_related_pairs in Hx as (_ & _ & Hx & _).
  apply elem_of_related_pairs in Hy as (_ & _ & Hy & _).
  assert (dx' = dx) as -> by congruence.
  assert (dy' = dy) as -> by congruence.
  apply (StronglySorted_lookup _ _ i j (x, dx) (y, dy)
           (sorted_by_distance_sorted _) Hij Hi' Hj').
Qed.

Lemma filter_insert_by_distance (d : nat) (x : string * nat) l :
  filter (fun p : string * nat => p.2 = d) (insert_by_distance x l)
    = filter (fun p : string * nat => p.2 = d) (x :: l).
Proof.
  induction l as [|y l IH]; simpl; [done|].
  case_decide as Hxy; [done|].
  rewrite filter_cons, IH, !filter_cons.
  repeat case_decide; try done; simpl in *; lia.
Qed.

Lemma filter_sorted_by_distance (d : nat) l :
  filter (fun p : string * nat => p.2 = d) (sorted_by_distance l)
    = filter (fun p : string * nat => p.2 = d) l.
Proof.
  induction l as [|y l IH]; simpl; [done|].
  by rewrite filter_insert_by_distance, !filter_cons, IH.
Qed.

Lemma filter_fst_distance g nm (d : nat) (l : list (string * nat)) :
  Forall (fun p => shortest_path_length g nm p.1 = Some p.2) l ->
  filter (fun y => shortest_path_length g nm y = Some d) l.*1
    = (filter (fun p : string * nat => p.2 = d) l).*1.
Proof.
  induction 1 as [|[y dy] l Hy Hl IH]; [done|].
  rewrite fmap_cons, !filter_cons, IH. simpl in *.
  repeat case_decide; try done; congruence.
Qed.

Lemma related_pairs_filter g0 nm max_distance (d : nat) (ns : list string) :
  Z.of_nat d <= max_distance ->
  (filter (fun p : string * nat => p.2 = d)
     (n ← ns;
      if decide (n = nm) then []
      else match shortest_path_length g0 nm n with
           | Some distance =>
               if decide (Z.of_nat distance <= max_distance)
               then [(n, distance)] else []
           | None => []
           end)).*1
  = filter (fun y => y <> nm /\ shortest_path_length g0 nm y = Some d) ns.
Proof.
  intros Hd. induction ns as [|y l IH]; [done|].
  rewrite bind_cons, filter_app, fmap_app, IH, (filter_cons _ y l).
  cbv beta. destruct (decide (y = nm)) as [->|Hne].
  - rewrite decide_False; [done|]. by intros [? _].
  - destruct (shortest_path_length g0 nm y) as [dy|] eqn:Hdy.
    + destruct (decide (dy = d)) as [->|Hdd].
      * rewrite (decide_True (P := Z.of_nat d <= max_distance)) by done.
        rewrite filter_cons, decide_True by done.
        by rewrite decide_True.
      * rewrite (decide_False (P := _ /\ _)) by (intros [_ [=]]; done).
        case_decide; [|done]. by rewrite filter_cons, decide_False.
    + rewrite decide_False; [done|]. by intros [_ [=]].
Qed.

Lemma related_pairs_sublist g0 nm max_distance (ns : list string) :
  (n ← ns;
   if decide (n = nm) then []
   else match shortest_path_length g0 nm n with
        | Some distance =>
            if decide (Z.of_nat distance <= max_distance)
            then [(n, distance)] else []
        | None => []
        end).*1 `sublist_of` ns.
Proof.
  induction ns as [|y l IH]; [done|].
  simpl. rewrite fmap_app.
  case_decide; [by apply sublist_cons|].
  destruct (shortest_path_length g0 nm y) as [dy|]; [|by apply sublist_cons].
  case_decide; [|by apply sublist_cons]. simpl. by apply sublist_skip.
Qed.

(** X14.  Names at the same distance come in the order in which their
    nodes were added to the graph. *)
Theorem find_related_stable o nm max_distance (d : nat) :
  nm ∈ nodes (graph o) -> Z.of_nat d <= max_distance ->
  filter (fun y => shortest_path_length (graph o) nm y = Some d)
         (find_related_concepts o nm max_distance)
    = filter (fun y => y <> nm /\ shortest_path_length (graph o) nm y = Some d)
             (nodes (graph o)).
Proof.
  intros Hnm%has_node_spec Hd. rewrite find_related_unfold, Hnm. simpl.
  rewrite filter_fst_distance.
  2:{ rewrite Forall_forall. intros [y dy] Hin.
      rewrite sorted_by_distance_perm in Hin.
      by apply elem_of_related_pairs in Hin as (_ & _ & ? & _). }
  rewrite filter_sorted_by_distance. by apply related_pairs_filter.
Qed.

(** X15.  When the graph has no node twice, as in every store the
    operations produce, no name is returned twice. *)
Theorem find_related_NoDup o nm max_distance :
  NoDup (nodes (graph o)) -> NoDup (find_related_concepts o nm max_distance).
Proof.
  intros Hnd. rewrite find_related_unfold. destruct (negb _); [constructor|].
  rewrite sorted_by_distance_perm. apply (sublist_NoDup _ (nodes (graph o)));
    [exact Hnd|apply related_pairs_sublist].
Qed.
End Related.

Lemma find_related_nonpositive_witness :
  find_related_concepts (FashionOntology_init wall_clock) "Fashion" (-1) = [].
Proof.
  apply (find_related_nonpositive (FashionOntology_init wall_clock) "Fashion" (-1)).
  lia.
Defined.

Lemma find_related_sorted_witness :
  find_related_concepts (scenario wall_clock) "Fashion" 2 !! 0%nat
    = Some "Apparel" /\
  find_related_concepts (scenario wall_clock) "Fashion" 2 !! 1%nat
    = Some "Dresses" /\
  (1 <= 2)%nat.
Proof.
  split_and!; [by vm_compute..|].
  apply (find_related_sorted (scenario wall_clock) "Fashion" 2 0 1
           "Apparel" "Dresses" 1 2); [lia|by vm_compute..].
Defined.

Lemma find_related_stable_witness :
  filter (fun y => DiGraph.shortest_path_length
                     (graph (FashionOntology_init wall_clock)) "Fashion" y
                   = Some 1%nat)
         (find_related_concepts (FashionOntology_init wall_clock) "Fashion" 1)
    = filter (fun y => y <> "Fashion" /\
                DiGraph.shortest_path_length
                  (graph (FashionOntology_init wall_clock)) "Fashion" y
                = Some 1%nat)
             (DiGraph.nodes (graph (FashionOntology_init wall_clock))).
Proof.
  apply (find_related_stable (FashionOntology_init wall_clock) "Fashion" 1 1).
  - apply (bool_decide_unpack _). by vm_compute.
  - lia.
Defined.

Lemma find_related_NoDup_witness :
  NoDup (find_related_concepts (scenario wall_clock) "Fashion" 2).
Proof.
  apply (find_related_NoDup (scenario wall_clock) "Fashion" 2).
  apply (bool_decide_unpack _). by vm_compute.
Defined.

(** ** Documents *)

Lemma dumps_loads : forall j, dumps (loads j) = j.
Proof.
  fix IH 1. intros [|b|z|s|l|d]; simpl; try done.
  - f_equal. induction l as [|x l IHl]; simpl; [done|].
    f_equal; [apply IH|apply IHl].
  - f_equal. induction d as [|[k x] d IHd]; simpl; [done|].
    f_equal; [|apply IHd]. f_equal. apply IH.
Qed.

Lemma dumps_loads_dict (d : jobject) : dumps_dict (loads_dict d) = d.
Proof.
  unfold dumps_dict, loads_dict. induction d as [|[k x] d IH]; simpl; [done|].
  f_equal; [|done]. f_equal. apply dumps_loads.
Qed.

Section Documents.
Variable now : nat -> Z.
Implicit Types (o self : FashionOntology) (nm : string)
  (es : list (string * ConceptDict jobject)).

Lemma replay_ext o es1 es2 :
  entry_fields <$> es1 = entry_fields <$> es2 ->
  replay now o es1 = replay now o es2.
Proof.
  revert o es2. induction es1 as [|x es1 IH]; intros o [|y es2] Heq;
    try done.
  destruct x as [kx dx], y as [ky dy]. rewrite !fmap_cons in Heq.
  injection Heq as Hk Hc Ha Hp Heq. simpl in *.
  rewrite Hk, Hc, Ha, Hp. by apply IH.
Qed.

Lemma export_import_fields self data :
  NoDup (doc_concepts data).*1 ->
  entry_fields <$> doc_concepts (export_to_json (import_from_json now self data))
    = entry_fields <$> doc_concepts data.
Proof.
  intros Hnd. set (o1 := import_from_json now self data).
  assert (Hkeys : dict_keys (concepts o1) = (doc_concepts data).*1).
  { unfold o1, import_from_json. by rewrite replay_keys. }
  assert (Hnd1 : NoDup (dict_keys (concepts o1))) by by rewrite Hkeys.
  apply list_eq. intros i. unfold export_to_json. simpl.
  rewrite !list_lookup_fmap.
  pose proof (f_equal (fun l => l !! i) Hkeys) as Hi. simpl in Hi.
  unfold dict_keys in Hi. rewrite !list_lookup_fmap in Hi.
  destruct (concepts o1 !! i) as [[nm c]|] eqn:Hc;
    destruct (doc_concepts data !! i) as [[nm' d]|] eqn:Hd; simpl in *;
    try done.
  injection Hi as ->.
  assert (Hget : dict_get (concepts o1) nm' = Some c).
  { apply dict_elem_get; [done|]. by eapply list_elem_of_lookup_2. }
  pose proof (replay_core now (cleared (clock_reads self)) _ i nm' d Hnd Hd)
    as Hcore.
  fold (import_from_json now self data) in Hcore. fold o1 in Hcore.
  rewrite Hget in Hcore. simpl in Hcore. unfold core in Hcore.
  injection Hcore as _ Hcat Hattr Hpar _ _.
  unfold entry_fields. simpl. by rewrite Hcat, Hattr, Hpar, dumps_loads_dict.
Qed.

(** X16.  [import_from_json] reads the name, category, attributes and
    parent of every entry and nothing else, and keeps nothing of the store
    it is called on: two imports give the same store whenever the documents
    agree on these fields, entry by entry, and the clock stands at the same
    reading.  The [children] lists, the timestamps and the [relationships]
    array of the document have no effect. *)
Theorem import_reads_fields o1 o2 data1 data2 :
  clock_reads o1 = clock_reads o2 ->
  entry_fields <$> doc_concepts data1 = entry_fields <$> doc_concepts data2 ->
  import_from_json now o1 data1 = import_from_json now o2 data2.
Proof.
  intros Hclock Hfields. unfold import_from_json. rewrite Hclock.
  by apply replay_ext.
Qed.

(** X17.  Exporting what was just imported gives back the document, as far
    as import reads it: the same entries in the same order, each with the
    name, category, attributes and parent it had. *)
Theorem export_import_document self data :
  NoDup (doc_concepts data).*1 ->
  entry_fields <$> doc_concepts (export_to_json (import_from_json now self data))
    = entry_fields <$> doc_concepts data.
Proof. apply export_import_fields. Qed.

(** X18.  An imported store goes through export and import unchanged:
    importing its export, with the clock at the reading it had before the
    first import, gives the very same store, children sets, graph and
    timestamps included. *)
Theorem import_export_import self self' data :
  NoDup (doc_concepts data).*1 ->
  clock_reads self' = clock_reads self ->
  import_from_json now self'
    (export_to_json (import_from_json now self data))
  = import_from_json now self data.
Proof.
  intros Hnd Hclock. unfold import_from_json at 1 3. rewrite Hclock.
  apply replay_ext. by apply export_import_fields.
Qed.
End Documents.

Section ImportChildren.
Variable now : nat -> Z.
Implicit Types (o self : FashionOntology) (nm P C : string)
  (es : list (string * ConceptDict jobject)).

Lemma get_children_add_concept o nm cat attrs par q :
  get_children (add_concept now o nm cat attrs par) q =
    (if decide (q = nm) then ∅ else get_children o q) ∪
    (if bool_decide (par = Some q /\ q <> "" /\
                     (q = nm \/ is_Some (dict_get (concepts o) q)))
     then {[nm]} else ∅).
Proof.
  unfold get_children at 1.
  destruct (dict_get (concepts (add_concept now o nm cat attrs par)) q)
    as [k|] eqn:Hk.
  - rewrite (add_concept_children _ _ _ _ _ _ _ _ Hk).
    assert (Hq : q = nm \/ is_Some (dict_get (concepts o) q))
      by (apply (add_concept_known now o nm cat attrs par); eauto).
    f_equal. repeat case_bool_decide; try done; exfalso; tauto.
  - assert (Hq : ~ (q = nm \/ is_Some (dict_get (concepts o) q))).
    { rewrite <- (add_concept_known now o nm cat attrs par), Hk.
      by intros [? [=]]. }
    rewrite decide_False by tauto.
    rewrite bool_decide_eq_false_2 by tauto.
    unfold get_children. destruct (dict_get (concepts o) q) eqn:Hq'.
    + exfalso. apply Hq. right. eauto.
    + set_solver.
Qed.

Lemma replay_known k es q :
  NoDup es.*1 ->
  is_Some (dict_get (concepts (replay now (cleared k) es)) q) <-> q ∈ es.*1.
Proof.
  intros Hnd. rewrite dict_get_is_Some, replay_keys; [done|]. done.
Qed.

Lemma replay_children k es P C :
  NoDup es.*1 ->
  C ∈ get_children (replay now (cleared k) es) P <->
  P <> "" /\
  exists i j dP dC, (i <= j)%nat /\ es !! i = Some (P, dP) /\
    es !! j = Some (C, dC) /\ d_parent dC = Some P.
Proof.
  induction es as [|[nm d] es IH] using rev_ind; intros Hnd.
  - simpl. split; [set_solver|]. intros (_ & i & j & dP & dC & _ & Hi & _).
    done.
  - rewrite fmap_app in Hnd. apply NoDup_app in Hnd as (Hnd & Hx & _).
    assert (Hnm : nm ∉ es.*1).
    { intros Hin. apply (Hx nm Hin). simpl. left. }
    rewrite replay_snoc, get_children_add_concept, elem_of_union. simpl.
    split.
    + intros [HC|HC].
      * case_decide as HP; [set_solver|]. apply IH in HC; [|done].
        destruct HC as (Hne & i & j & dP & dC & Hij & Hi & Hj & Hp).
        split; [done|]. exists i, j, dP, dC.
        split_and!; [done| | |done]; apply lookup_app_l_Some; done.
      * case_bool_decide as Hb; [|set_solver].
        apply elem_of_singleton in HC as ->.
        destruct Hb as (Hp & Hne & Hk). split; [done|].
        destruct Hk as [->|HP].
        -- exists (length es), (length es), d, d.
           split_and!; [done| | |done]; by rewrite list_lookup_middle.
        -- apply replay_known in HP; [|done].
           apply list_elem_of_fmap in HP as ([P' dP] & -> & Hin).
           apply list_elem_of_lookup in Hin as [i Hi].
           exists i, (length es), dP, d.
           assert (i < length es)%nat by (by eapply lookup_lt_Some).
           split_and!; [lia| | |done].
           ++ by apply lookup_app_l_Some.
           ++ by rewrite list_lookup_middle.
    + intros (Hne & i & j & dP & dC & Hij & Hi & Hj & Hp).
      destruct (decide (j < length es)%nat) as [Hlt|Hge].
      * left. rewrite lookup_app_l in Hi, Hj by lia.
        assert (P <> nm).
        { intros ->. apply Hnm. apply list_elem_of_fmap. exists (nm, dP).
          split; [done|]. by eapply list_elem_of_lookup_2. }
        rewrite decide_False by done. apply IH; [done|].
        split; [done|]. eauto 10.
      * right. assert (j < length (es ++ [(nm, d)]))%nat
          by (by eapply lookup_lt_Some).
        rewrite length_app in *. simpl in *.
        assert (j = length es) as -> by lia.
        rewrite list_lookup_middle in Hj by done. injection Hj as -> ->.
        rewrite bool_decide_eq_true_2; [set_solver|].
        split_and!; [done..|].
        destruct (decide (i = length es)) as [->|Hi'].
        -- rewrite list_lookup_middle in Hi by done. injection Hi as -> _.
           by left.
        -- right. rewrite lookup_app_l in Hi by lia.
           apply replay_known; [done|].
           apply list_elem_of_fmap. exists (P, dP). split; [done|].
           by eapply list_elem_of_lookup_2.
Qed.

(** X19.  After an import a concept is in the children set of its parent
    exactly when the parent has an entry of its own that does not come
    after the concept's entry in the document (an entry naming itself as
    parent counts). *)
Theorem import_children self data P C :
  NoDup (doc_concepts data).*1 ->
  C ∈ get_children (import_from_json now self data) P <->
  P <> "" /\
  exists i j dP dC, (i <= j)%nat /\
    doc_concepts data !! i = Some (P, dP) /\
    doc_concepts data !! j = Some (C, dC) /\ d_parent dC = Some P.
Proof. intros Hnd. by apply replay_children. Qed.
End ImportChildren.

Section ExportShape.
Variable now : nat -> Z.
Implicit Types (o : FashionOntology) (nm : string).

(** X20.  The document exported from a store the operations produce hangs
    together: no name has two entries, every entry repeats its key in its
    [name] field, every child an entry lists has an entry of its own and is
    joined to it in [relationships], every entry with a non-empty parent is
    joined to that parent in [relationships], and every pair of
    [relationships] ends in a name that has an entry. *)
Theorem export_well_formed o :
  reachable now o ->
  NoDup (doc_concepts (export_to_json o)).*1 /\
  (forall k e, (k, e) ∈ doc_concepts (export_to_json o) ->
     d_name e = k /\
     (forall ch, ch ∈ d_children e ->
        ch ∈ (doc_concepts (export_to_json o)).*1 /\
        (k, ch) ∈ doc_relationships (export_to_json o)) /\
     (forall p, d_parent e = Some p -> p <> "" ->
        (p, k) ∈ doc_relationships (export_to_json o))) /\
  (forall u v, (u, v) ∈ doc_relationships (export_to_json o) ->
     v ∈ (doc_concepts (export_to_json o)).*1).
Proof.
  intros Hr. destruct (keys_named_inv now o Hr) as [Hnd Hname].
  rewrite export_keys. split_and!; [done| |].
  - intros k e Hin. unfold export_to_json in Hin. simpl in Hin.
    apply list_elem_of_fmap in Hin as ([k' c] & [= -> ->] & Hin). simpl.
    apply dict_elem_get in Hin; [|done]. split_and!.
    + by apply Hname.
    + intros ch Hch%elem_of_elements.
      destruct (children_sound_inv now o k' c ch Hr Hin Hch) as [Hk He].
      split; [by apply dict_get_is_Some|done].
    + intros p Hp Hne. by eapply parent_edges_inv.
  - intros u v Huv. simpl in Huv.
    destruct (graph_inv now o Hr) as (_ & _ & He).
    destruct (He _ _ Huv) as (_ & _ & Hv). by apply dict_get_is_Some.
Qed.
End ExportShape.

Lemma export_well_formed_witness :
  NoDup (doc_concepts (export_to_json (sample_store wall_clock))).*1 /\
  (forall k e, (k, e) ∈ doc_concepts (export_to_json (sample_store wall_clock)) ->
     d_name e = k /\
     (forall ch, ch ∈ d_children e ->
        ch ∈ (doc_concepts (export_to_json (sample_store wall_clock))).*1 /\
        (k, ch) ∈ doc_relationships (export_to_json (sample_store wall_clock))) /\
     (forall p, d_parent e = Some p -> p <> "" ->
        (p, k) ∈ doc_relationships (export_to_json (sample_store wall_clock)))) /\
  (forall u v, (u, v) ∈ doc_relationships (export_to_json (sample_store wall_clock)) ->
     v ∈ (doc_concepts (export_to_json (sample_store wall_clock))).*1).
Proof.
  apply (export_well_formed wall_clock (sample_store wall_clock)).
  unfold sample_store, scenario. repeat constructor.
Defined.

(** A document in which a child comes before its parent, with attributes
    given as in a file. *)
Example import_children_order :
  let data :=
    {| doc_concepts :=
         [("Shirts", mkDict "Shirts" "sub_category" [] (Some "Tops") [] 0 0);
          ("Tops", mkDict "Tops" "sub_category" [] (Some "Apparel")
                     ["Shirts"] 0 0);
          ("Blouses", mkDict "Blouses" "sub_category" [] (Some "Tops") [] 0 0)];
       doc_relationships := [] |} in
  elements (get_children (import_from_json wall_clock (cleared 0) data) "Tops")
    = ["Blouses"].
Proof. by vm_compute. Qed.

Lemma import_reads_fields_witness :
  import_from_json wall_clock (scenario wall_clock)
    {| doc_concepts :=
         [("Tops", mkDict "Tops" "sub_category" [] (Some "Apparel")
                     ["Shirts"] 10 11)];
       doc_relationships := [("Apparel", "Tops")] |}
  = import_from_json wall_clock (cleared 6)
      {| doc_concepts :=
           [("Tops", mkDict "Other" "sub_category" [] (Some "Apparel") [] 0 0)];
         doc_relationships := [] |}.
Proof.
  apply (import_reads_fields wall_clock (scenario wall_clock) (cleared 6));
    reflexivity.
Defined.

Lemma export_import_document_witness :
  entry_fields <$> doc_concepts
    (export_to_json
       (import_from_json wall_clock (cleared 0)
          (export_to_json (sample_store wall_clock))))
  = entry_fields <$> doc_concepts (export_to_json (sample_store wall_clock)).
Proof.
  apply (export_import_document wall_clock (cleared 0)
           (export_to_json (sample_store wall_clock))).
  apply (bool_decide_unpack _). by vm_compute.
Defined.

Lemma import_export_import_witness :
  import_from_json wall_clock (cleared 0)
    (export_to_json
       (import_from_json wall_clock (cleared 0)
          (export_to_json (sample_store wall_clock))))
  = import_from_json wall_clock (cleared 0)
      (export_to_json (sample_store wall_clock)).
Proof.
  apply (import_export_import wall_clock (cleared 0) (cleared 0)
           (export_to_json (sample_store wall_clock))).
  - apply (bool_decide_unpack _). by vm_compute.
  - reflexivity.
Defined.

Lemma import_children_witness :
  "Dresses" ∈ get_children
    (import_from_json wall_clock (cleared 0)
       (export_to_json (scenario wall_clock))) "Apparel".
Proof.
  apply (proj2 (import_children wall_clock (cleared 0)
                  (export_to_json (scenario wall_clock)) "Apparel" "Dresses"
                  ltac:(apply (bool_decide_unpack _); by vm_compute))).
  split; [discriminate|].
  exists 1%nat, 2%nat,
    (mkDict "Apparel" "main_category" [] (Some "Fashion") ["Dresses"] 2 3),
    (mkDict "Dresses" "sub_category" [] (Some "Apparel") [] 4 5).
  split_and!; [lia|by vm_compute..|reflexivity].
Defined.

(** ** Proposals *)

Lemma set_remove_set_add (x : Proposal) (s : list Proposal) :
  x ∉ s -> set_remove x (set_add x s) = s.
Proof.
  intros Hx. unfold set_add, set_remove.
  rewrite bool_decide_eq_false_2 by done.
  rewrite filter_app, filter_cons, decide_False, app_nil_r by (by intros ?).
  induction s as [|y s IH]; [done|].
  apply not_elem_of_cons in Hx as [Hxy Hx].
  rewrite filter_cons, decide_True by done. f_equal. by apply IH.
Qed.

Lemma set_remove_NoDup (x : Proposal) (s : list Proposal) :
  NoDup s -> NoDup (set_remove x s).
Proof. apply NoDup_filter. Qed.

Lemma set_remove_length (x : Proposal) (s : list Proposal) :
  NoDup s -> x ∈ s -> length s = S (length (set_remove x s)).
Proof.
  unfold set_remove. induction 1 as [|y s Hy Hnd IH]; intros Hx.
  - by apply elem_of_nil in Hx.
  - rewrite filter_cons. apply elem_of_cons in Hx as [->|Hx].
    + rewrite decide_False by (by intros ?). simpl. f_equal.
      f_equal. symmetry. clear IH Hnd.
      induction s as [|z s IHs]; [done|].
      apply not_elem_of_cons in Hy as [Hyz Hy].
      rewrite filter_cons, decide_True by done. f_equal. by apply IHs.
    + rewrite decide_True by (intros ->; done). simpl. f_equal. by apply IH.
Qed.

(** X21.  The pending set is keyed by the serialized proposal: a second
    suggestion with the same name, category and parent whose attributes
    serialize to the same text (the same attributes, or tuples where the
    first had lists) leaves the manager as the first left it and returns
    what the first returned. *)
Theorem suggest_new_concept_again (m : OntologyManager) (nm cat : string)
    (attrs attrs' : option pydict) (par : option string) :
  dumps_dict <$> attrs' = dumps_dict <$> attrs ->
  suggest_new_concept (suggest_new_concept m nm cat attrs par).2
    nm cat attrs' par
  = suggest_new_concept m nm cat attrs par.
Proof.
  intros Hj. unfold suggest_new_concept.
  destruct (dict_mem (concepts (ontology m)) nm) eqn:Hk; simpl; rewrite Hk;
    [done|].
  rewrite Hj. f_equal. f_equal. unfold set_add at 1.
  rewrite bool_decide_eq_true_2; [done|].
  apply elem_of_set_add. by left.
Qed.

Section ProposalsApproved.
Variable now : nat -> Z.
Variable iteration : list Proposal -> list Proposal.
Hypothesis iteration_elements : forall s x, x ∈ iteration s <-> x ∈ s.
Implicit Types (m : OntologyManager) (nm : string) (x y : Proposal).

(** X22.  Suggesting a new name and approving it at once, with no other
    proposal of that name pending, amounts to adding the concept directly
    with the attributes as they come back from JSON; the pending set is as
    it was before the suggestion. *)
Theorem suggest_then_approve m nm cat attrs par :
  dict_get (concepts (ontology m)) nm = None ->
  (forall x, x ∈ pending_concepts m -> p_name x <> nm) ->
  approve_concept now iteration
    (suggest_new_concept m nm cat attrs par).2 nm
  = (true,
     {| ontology := add_concept now (ontology m) nm cat
                      (loads_dict <$> (dumps_dict <$> attrs)) par;
        pending_concepts := pending_concepts m |}).
Proof.
  intros Hnew%dict_mem_false Hothers. unfold suggest_new_concept.
  rewrite Hnew. simpl.
  set (x := {| p_name := nm; p_category := cat;
               p_attributes := dumps_dict <$> attrs; p_parent := par |}).
  set (m1 := {| ontology := ontology m;
                pending_concepts := set_add x (pending_concepts m) |}).
  assert (Hx : x ∉ pending_concepts m).
  { intros Hin. by apply (Hothers x Hin). }
  destruct (approve_concept_cases now iteration iteration_elements m1 nm)
    as [[Hall _]|(y & Hy & Hnm & Hres)].
  - destruct (Hall x); [|done]. apply elem_of_set_add. by left.
  - simpl in Hy. apply elem_of_set_add in Hy as [->|Hy];
      [|by destruct (Hothers y Hy)].
    rewrite Hres. unfold commit. simpl. by rewrite set_remove_set_add.
Qed.

(** X23.  An approval that succeeds takes exactly one proposal out of the
    pending set, which stays free of duplicates; one that fails leaves its
    size alone. *)
Theorem approve_concept_pending_count m nm :
  NoDup (pending_concepts m) ->
  NoDup (pending_concepts (approve_concept now iteration m nm).2) /\
  length (pending_concepts m)
    = if (approve_concept now iteration m nm).1
      then S (length (pending_concepts (approve_concept now iteration m nm).2))
      else length (pending_concepts (approve_concept now iteration m nm).2).
Proof.
  intros Hnd.
  destruct (approve_concept_cases now iteration iteration_elements m nm)
    as [[_ Hres]|(x & Hx & _ & Hres)]; rewrite Hres; simpl; [done|].
  split; [by apply set_remove_NoDup|by apply set_remove_length].
Qed.

(** X24.  Once a name has been approved it is committed: suggesting it
    again is refused and changes nothing. *)
Theorem approve_then_suggest m nm cat attrs par :
  (approve_concept now iteration m nm).1 = true ->
  suggest_new_concept (approve_concept now iteration m nm).2 nm cat attrs par
  = (false, (approve_concept now iteration m nm).2).
Proof.
  destruct (approve_concept_cases now iteration iteration_elements m nm)
    as [[_ Hres]|(x & Hx & Hnm & Hres)]; rewrite Hres; simpl; [done|].
  intros _. unfold suggest_new_concept. simpl.
  replace (dict_mem _ nm) with true; [done|].
  symmetry. apply dict_mem_spec, add_concept_known. by left.
Qed.
End ProposalsApproved.

Lemma suggest_new_concept_again_witness :
  suggest_new_concept
    (suggest_new_concept (OntologyManager_init wall_clock) "Velvet" "attribute"
       (Some [("widths", PyList [PyInt 90; PyInt 140])]) (Some "Material")).2
    "Velvet" "attribute"
    (Some [("widths", PyTuple [PyInt 90; PyInt 140])]) (Some "Material")
  = suggest_new_concept (OntologyManager_init wall_clock) "Velvet" "attribute"
      (Some [("widths", PyList [PyInt 90; PyInt 140])]) (Some "Material").
Proof.
  apply (suggest_new_concept_again (OntologyManager_init wall_clock)
           "Velvet" "attribute"
           (Some [("widths", PyList [PyInt 90; PyInt 140])])
           (Some [("widths", PyTuple [PyInt 90; PyInt 140])])
           (Some "Material")).
  reflexivity.
Defined.

Lemma suggest_then_approve_witness :
  approve_concept wall_clock (fun s => s)
    (suggest_new_concept (OntologyManager_init wall_clock) "Velvet"
       "attribute" (Some [("widths", PyTuple [PyInt 90; PyInt 140])])
       (Some "Material")).2 "Velvet"
  = (true,
     {| ontology :=
          add_concept wall_clock (ontology (OntologyManager_init wall_clock))
            "Velvet" "attribute"
            (loads_dict <$>
               (dumps_dict <$>
                  Some [("widths", PyTuple [PyInt 90; PyInt 140])]))
            (Some "Material");
        pending_concepts := pending_concepts (OntologyManager_init wall_clock) |}).
Proof.
  apply (suggest_then_approve wall_clock (fun s => s) (fun s x => iff_refl _)
           (OntologyManager_init wall_clock) "Velvet" "attribute"
           (Some [("widths", PyTuple [PyInt 90; PyInt 140])])
           (Some "Material")).
  - by vm_compute.
  - intros x Hx. by apply elem_of_nil in Hx.
Defined.

Lemma approve_concept_pending_count_witness :
  NoDup (pending_concepts
           (approve_concept wall_clock (fun s => s) velvet_pending "Velvet").2) /\
  length (pending_concepts velvet_pending)
    = if (approve_concept wall_clock (fun s => s) velvet_pending "Velvet").1
      then S (length (pending_concepts
                        (approve_concept wall_clock (fun s => s)
                           velvet_pending "Velvet").2))
      else length (pending_concepts
                     (approve_concept wall_clock (fun s => s)
                        velvet_pending "Velvet").2).
Proof.
  apply (approve_concept_pending_count wall_clock (fun s => s)
           (fun s x => iff_refl _) velvet_pending "Velvet").
  apply (bool_decide_unpack _). by vm_compute.
Defined.

Lemma approve_then_suggest_witness :
  suggest_new_concept
    (approve_concept wall_clock (fun s => s) velvet_pending "Velvet").2
    "Velvet" "attribute" None None
  = (false, (approve_concept wall_clock (fun s => s) velvet_pending "Velvet").2).
Proof.
  apply (approve_then_suggest wall_clock (fun s => s) (fun s x => iff_refl _)
           velvet_pending "Velvet" "attribute" None None).
  by vm_compute.
Defined.

(** ** Updating the attributes of a concept *)

Section Update.
Context {V : Type}.
Implicit Types (d new : list (string * V)) (k : string) (v : V).

Lemma dict_update_cons d k v new :
  dict_update d ((k, v) :: new) = dict_update (dict_set d k v) new.
Proof. done. Qed.

Lemma dict_get_update d new k :
  NoDup new.*1 ->
  dict_get (dict_update d new) k =
    match dict_get new k with
    | Some v => Some v
    | None => dict_get d k
    end.
Proof.
  revert d. induction new as [|[k0 v0] new IH]; intros d Hnd; [done|].
  rewrite fmap_cons in Hnd. apply NoDup_cons in Hnd as [Hk0 Hnd].
  rewrite dict_update_cons, IH by done. simpl.
  destruct (dict_get new k) as [v|] eqn:Hk.
  - rewrite decide_False; [done|]. intros ->. apply Hk0.
    apply (dict_get_is_Some new k). eauto.
  - rewrite dict_get_set. by repeat case_decide.
Qed.

Lemma filter_ext_elem (P Q : string -> Prop)
    `{!forall x, Decision (P x)} `{!forall x, Decision (Q x)} (l : list string) :
  (forall x, x ∈ l -> P x <-> Q x) -> filter P l = filter Q l.
Proof.
  induction l as [|x l IH]; intros Hiff; [done|].
  rewrite !filter_cons. rewrite IH by (intros y Hy; apply Hiff; by right).
  pose proof (Hiff x ltac:(left)) as Hx.
  repeat case_decide; try done; tauto.
Qed.

Lemma dict_keys_update d new :
  NoDup new.*1 ->
  dict_keys (dict_update d new)
    = dict_keys d ++ filter (fun k => k ∉ dict_keys d) new.*1.
Proof.
  revert d. induction new as [|[k0 v0] new IH]; intros d Hnd.
  - simpl. by rewrite app_nil_r.
  - rewrite fmap_cons in Hnd. apply NoDup_cons in Hnd as [Hk0 Hnd].
    rewrite dict_update_cons, IH, dict_keys_set by done.
    rewrite fmap_cons, filter_cons. simpl.
    destruct (dict_mem d k0) eqn:Hmem.
    + apply dict_mem_spec, dict_get_is_Some in Hmem.
      by rewrite decide_False by (by intros ?).
    + apply dict_mem_false, dict_get_None in Hmem.
      rewrite decide_True by done. rewrite <- app_assoc. simpl.
      do 2 f_equal. apply filter_ext_elem. intros x Hx.
      rewrite not_elem_of_app, list_elem_of_singleton.
      split; [tauto|]. intros Hxd. split; [done|]. by intros ->.
Qed.

Lemma dict_update_NoDup d new :
  NoDup (dict_keys d) -> NoDup (dict_keys (dict_update d new)).
Proof.
  revert d. induction new as [|[k0 v0] new IH]; intros d Hnd; [done|].
  rewrite dict_update_cons. apply IH. rewrite dict_keys_set.
  destruct (dict_mem d k0) eqn:Hmem; [done|].
  apply dict_mem_false, dict_get_None in Hmem.
  apply NoDup_app. split_and!; [done| |apply NoDup_singleton].
  by intros x Hx ->%list_elem_of_singleton.
Qed.

Lemma dict_set_same d k v : dict_get d k = Some v -> dict_set d k v = d.
Proof.
  induction d as [|[k0 v0] d IH]; simpl; [done|].
  case_decide as Hk; [by intros [= ->]; subst|]. intros H. f_equal. auto.
Qed.

Lemma dict_update_same d new :
  (forall k v, (k, v) ∈ new -> dict_get d k = Some v) ->
  dict_update d new = d.
Proof.
  induction new as [|[k0 v0] new IH]; intros H; [done|].
  rewrite dict_update_cons, dict_set_same by (apply H; left).
  apply IH. intros k v Hin. apply H. by right.
Qed.

Lemma dict_update_twice d new :
  NoDup new.*1 -> dict_update (dict_update d new) new = dict_update d new.
Proof.
  intros Hnd. apply dict_update_same. intros k v Hin.
  rewrite dict_get_update by done.
  by rewrite (dict_elem_get new k v Hnd Hin).
Qed.
End Update.

(** X25.  [update] merges the given attributes into those of the concept:
    afterwards a key of the given dictionary has the given value and every
    other key the value it had; the keys the concept had keep their place
    and the new ones follow in the order given.  Only [modified_at] changes
    besides. *)
Theorem update_spec (c : FashionConcept) (attrs : pydict) (t : Z) :
  NoDup attrs.*1 ->
  (forall k, dict_get (attributes (update c attrs t)) k =
     match dict_get attrs k with
     | Some v => Some v
     | None => dict_get (attributes c) k
     end) /\
  dict_keys (attributes (update c attrs t))
    = dict_keys (attributes c)
      ++ filter (fun k => k ∉ dict_keys (attributes c)) attrs.*1 /\
  (NoDup (dict_keys (attributes c)) ->
   NoDup (dict_keys (attributes (update c attrs t)))) /\
  modified_at (update c attrs t) = t /\
  (name (update c attrs t), category (update c attrs t),
   parent (update c attrs t), children (update c attrs t),
   created_at (update c attrs t))
  = (name c, category c, parent c, children c, created_at c).
Proof.
  intros Hnd. split_and!; [|by apply dict_keys_update| |done..].
  - intros k. by apply dict_get_update.
  - apply dict_update_NoDup.
Qed.

(** X26.  Updating twice with the same attributes is updating once, apart
    from the time of modification. *)
Theorem update_twice (c : FashionConcept) (attrs : pydict) (t t' : Z) :
  NoDup attrs.*1 ->
  update (update c attrs t) attrs t' = update c attrs t'.
Proof.
  intros Hnd. unfold update. simpl. by rewrite dict_update_twice.
Qed.

Lemma update_spec_witness :
  dict_get (attributes
    (update (FashionConcept_init "Trench" "sub_category"
               (Some sample_attributes) (Some "Outerwear") 0 1)
       [("sizes", PyList [PyInt 40]); ("belt", PyBool true)] 9)) "sizes"
  = Some (PyList [PyInt 40]) /\
  dict_keys (attributes
    (update (FashionConcept_init "Trench" "sub_category"
               (Some sample_attributes) (Some "Outerwear") 0 1)
       [("sizes", PyList [PyInt 40]); ("belt", PyBool true)] 9))
  = ["fabric"; "sizes"; "lining"] ++ ["belt"].
Proof.
  destruct (update_spec
              (FashionConcept_init "Trench" "sub_category"
                 (Some sample_attributes) (Some "Outerwear") 0 1)
              [("sizes", PyList [PyInt 40]); ("belt", PyBool true)] 9)
    as (Hget & Hkeys & _).
  - apply (bool_decide_unpack _). by vm_compute.
  - split; [apply (Hget "sizes")|apply Hkeys].
Defined.

Lemma update_twice_witness :
  update (update (FashionConcept_init "Trench" "sub_category"
                    (Some sample_attributes) (Some "Outerwear") 0 1)
            [("sizes", PyList [PyInt 40]); ("belt", PyBool true)] 9)
    [("sizes", PyList [PyInt 40]); ("belt", PyBool true)] 12
  = update (FashionConcept_init "Trench" "sub_category"
              (Some sample_attributes) (Some "Outerwear") 0 1)
      [("sizes", PyList [PyInt 40]); ("belt", PyBool true)] 12.
Proof.
  apply (update_twice
           (FashionConcept_init "Trench" "sub_category"
              (Some sample_attributes) (Some "Outerwear") 0 1)
           [("sizes", PyList [PyInt 40]); ("belt", PyBool true)] 9 12).
  apply (bool_decide_unpack _). by vm_compute.
Defined.

(** ** Operations together *)

Section Together.
Variable now : nat -> Z.
Implicit Types (o : FashionOntology) (nm p x : string).

Lemma successors_edges (g : DiGraph.t) u v :
  v ∈ DiGraph.successors g u -> (u, v) ∈ DiGraph.edges g.
Proof.
  intros Hv. apply DiGraphFacts.elem_of_edges.
  induction g as [|n g IH]; simpl in *; [by apply elem_of_nil in Hv|].
  case_decide as Hn.
  - exists n. split_and!; [left|done..].
  - destruct (IH Hv) as (y & Hy & Hyu & Hyv). exists y.
    split_and!; [by right|done..].
Qed.

(** X27.  In every store the operations produce, whatever
    [find_related_concepts] returns is a concept: a node that stands for a
    parent nobody added is never returned. *)
Theorem find_related_concepts_known o nm max_distance x :
  reachable now o ->
  x ∈ find_related_concepts o nm max_distance ->
  is_Some (dict_get (concepts o) x).
Proof.
  intros Hr (_ & d & (_ & Hne & Hd & _)%elem_of_related_pairs)%elem_of_find_related.
  apply shortest_path_length_Some in Hd as [Hw _].
  inversion Hw as [|y z k Hy Hz]; subst; [done|].
  apply successors_edges in Hz.
  destruct (graph_inv now o Hr) as (_ & _ & He).
  by destruct (He _ _ Hz) as (_ & _ & ?).
Qed.

(** X28.  Adding a concept under a new name and a parent that is already
    there, in a store grown in that way, puts the name into the children set
    of the parent and makes its ancestry the ancestry of the parent followed
    by the name. *)
Theorem add_concept_then_ancestry o nm cat attrs p :
  well_built now o ->
  dict_get (concepts o) nm = None -> p <> "" ->
  is_Some (dict_get (concepts o) p) ->
  nm ∈ get_children (add_concept now o nm cat attrs (Some p)) p /\
  exists l,
    get_ancestry (S (length (concepts o))) o p = Some l /\
    get_ancestry (S (S (length (concepts o))))
      (add_concept now o nm cat attrs (Some p)) nm = Some (l ++ [nm]).
Proof.
  intros Hwb Hfresh Hp Hknown.
  assert (Hpn : p <> nm) by (destruct Hknown; congruence).
  destruct (well_built_climbs now o Hwb) as [[_ Hpk] Hc].
  destruct (Hc p) as (path & Hcl & Hlen). split.
  - rewrite get_children_add_concept.
    rewrite (bool_decide_eq_true_2 (_ /\ _)) by auto. set_solver.
  - exists ("Fashion" :: reverse path). split.
    + unfold get_ancestry.
      rewrite (climbs_ancestry_walk _ _ _ _ [] Hcl) by lia. simpl.
      by rewrite reverse_snoc.
    + assert (Hcl' : climbs (concepts (add_concept now o nm cat attrs (Some p)))
                       nm (nm :: path)).
      { pose proof (add_concept_parent now o nm cat attrs (Some p) nm) as Hpar.
        rewrite decide_True in Hpar by done.
        destruct (dict_get (concepts (add_concept now o nm cat attrs (Some p))) nm)
          as [c|] eqn:Hcn; [|done].
        simpl in Hpar. injection Hpar as Hpar.
        econstructor; [done..|]. by apply climbs_add_concept. }
      unfold get_ancestry.
      rewrite (climbs_ancestry_walk _ _ _ _ [] Hcl') by (simpl; lia). simpl.
      by rewrite reverse_cons, reverse_snoc.
Qed.

(** X29.  On a freshly constructed ontology [get_ancestry] returns for
    every name after at most three iterations of its loop: the result
    starts with the root label, has at most three names, and ends with the
    name asked for when that is a concept. *)
Theorem get_ancestry_seeded nm :
  exists l,
    get_ancestry 3 (FashionOntology_init now) nm = Some ("Fashion" :: l) /\
    (length l <= 2)%nat /\
    (is_Some (dict_get (concepts (FashionOntology_init now)) nm) ->
     last ("Fashion" :: l) = Some nm).
Proof.
  assert (Hall : forallb (fun nm =>
      match get_ancestry 3 (FashionOntology_init now) nm with
      | Some (h :: l) =>
          bool_decide (h = "Fashion") && bool_decide (length l <= 2)%nat
          && bool_decide (last (h :: l) = Some nm)
      | _ => false
      end) (dict_keys (concepts (FashionOntology_init now))) = true)
    by (vm_compute; reflexivity).
  revert Hall. generalize (FashionOntology_init now). intros o Hall.
  destruct (dict_get (concepts o) nm) as [c|] eqn:Hc.
  - rewrite forallb_forall in Hall.
    assert (Hin : In nm (dict_keys (concepts o))).
    { apply list_elem_of_In, dict_get_is_Some. rewrite Hc. eauto. }
    specialize (Hall nm Hin).
    destruct (get_ancestry 3 o nm) as [[|h l]|]; [done| |done].
    apply andb_prop in Hall as [[Hh Hlen]%andb_prop Hlast].
    apply bool_decide_eq_true in Hh as ->.
    apply bool_decide_eq_true in Hlen, Hlast. eauto.
  - exists []. unfold get_ancestry. simpl. rewrite Hc.
    split_and!; [done|lia|]. by intros [? [=]].
Qed.
End Together.

Lemma find_related_concepts_known_witness :
  is_Some (dict_get (concepts (sample_store wall_clock)) "Dresses").
Proof.
  apply (find_related_concepts_known wall_clock (sample_store wall_clock)
           "Fashion" 2 "Dresses").
  - unfold sample_store, scenario. repeat constructor.
  - apply (bool_decide_unpack _). by vm_compute.
Defined.

Lemma add_concept_then_ancestry_witness :
  "Tops" ∈ get_children
    (add_concept wall_clock (scenario wall_clock) "Tops" "sub_category" None
       (Some "Apparel")) "Apparel" /\
  exists l,
    get_ancestry (S (length (concepts (scenario wall_clock))))
      (scenario wall_clock) "Apparel" = Some l /\
    get_ancestry (S (S (length (concepts (scenario wall_clock)))))
      (add_concept wall_clock (scenario wall_clock) "Tops" "sub_category"
         None (Some "Apparel")) "Tops" = Some (l ++ ["Tops"]).
Proof.
  apply (add_concept_then_ancestry wall_clock (scenario wall_clock) "Tops"
           "sub_category" None "Apparel").
  - unfold scenario.
    apply wb_child;
      [apply wb_child; [apply wb_root; [apply wb_cleared|]|..]|..];
      first [reflexivity | discriminate | by eexists; vm_compute].
  - by vm_compute.
  - discriminate.
  - by eexists; vm_compute.
Defined.
